(** * Reply encoding of the IRC server (src/irc/reply.go)

    A shallow embedding of the reply layer: identities, the three reply
    variants, the rendering of a numeric reply and the chunking loop of
    [NamesReply.Format], followed by the properties of the specification
    that were checked against it.

    Conventions of the embedding:
    - a Go [string] is a [string] (a sequence of bytes), [len] is its
      byte length;
    - a Go [int] is a [Z]; the sums of lengths are kept in the 64-bit
      two's complement range by [wrap_int]; [i - 1] on a loop index and
      [len(s) - 1] are exact, a length being between [0] and the largest
      [int];
    - the send-only channel [write chan<- string] is the list of the
      lines sent so far, threaded through every [Format];
    - a run-time panic (nil dereference, slice bounds) is [None];
    - [*Channel] is a reference into a store of channels, so that a
      reply built from a reference sees later changes of the channel. *)

From Stdlib Require Import ZArith Lia Ascii.
From stdpp Require Import base option list list_numbers strings gmap.

Local Open Scope Z_scope.

(** ** Strings and machine integers *)

Module GoString.

Definition len (s : string) : Z := Z.of_nat (String.length s).

(** [strings.Join(elems, sep)]. *)
Fixpoint Join (elems : list string) (sep : string) : string :=
  match elems with
  | [] => ""
  | [e] => e
  | e :: rest => e +:+ sep +:+ Join rest sep
  end.

(** A string of [n] copies of one byte, to build long names in examples. *)
Fixpoint Repeat (c : ascii) (n : nat) : string :=
  match n with
  | O => ""
  | S k => String c (Repeat c k)
  end.

End GoString.
Import GoString.

Module GoInt.

Definition int_min : Z := - 2 ^ 63.
Definition int_max : Z := 2 ^ 63 - 1.

(** Two's complement wrap-around of a 64-bit [int]. *)
Definition wrap_int (z : Z) : Z := (z + 2 ^ 63) mod 2 ^ 64 - 2 ^ 63.

Definition int_add (a b : Z) : Z := wrap_int (a + b).

End GoInt.
Import GoInt.

(** ** The [%03d] verb of [fmt.Sprintf] *)

Module Fmt.

Definition digit (d : Z) : ascii := ascii_of_nat (48 + Z.to_nat d).

(** The digit loop of the formatter: least significant digit first,
    written in front of what is already there.  A 64-bit value has at
    most twenty decimal digits, which bounds the loop. *)
Fixpoint fmtDigits (fuel : nat) (u : Z) (acc : string) : string :=
  match fuel with
  | O => acc
  | S fuel' =>
      if u <? 10 then String (digit u) acc
      else fmtDigits fuel' (u / 10) (String (digit (u mod 10)) acc)
  end.

Definition decimal (u : Z) : string := fmtDigits 20 u "".

(** Left padding with zeros up to [prec] digits. *)
Definition zeroPad (prec : nat) (s : string) : string :=
  Repeat "0"%char (prec - String.length s)%nat +:+ s.

(** [%03d]: width three, zero flag.  The sign of a negative number takes
    one of the three columns. *)
Definition fmt_03d (n : Z) : string :=
  if n <? 0 then "-" +:+ zeroPad 2 (decimal (- n))
  else zeroPad 3 (decimal n).

(** The three decimal digits of a number below a thousand. *)
Definition three_digits (n : Z) : string :=
  String (digit (n / 100))
    (String (digit (n / 10 mod 10)) (String (digit (n mod 10)) "")).

End Fmt.
Import Fmt.

(** ** Identities *)

(** [type Identifier interface { Id() string; PublicId() string; Nick() string }] *)
Class Identifier (A : Type) := {
  Id : A → string;
  PublicId : A → string;
  Nick : A → string
}.

(** A value of interface type [Identifier]: a dynamic type, its method
    table and the value. *)
Record IdentifierValue := AsIdentifier {
  dyn_type : Type;
  dyn_methods : Identifier dyn_type;
  dyn_value : dyn_type
}.
Arguments AsIdentifier {dyn_type dyn_methods} dyn_value.

Definition IdOf (v : IdentifierValue) : string :=
  @Id _ (dyn_methods v) (dyn_value v).

(** Modelled from the spec: the declarations of [Server], [Client] and
    [Channel] are not under src/.  Section 3 gives every identity as the
    read-only triple (internalId, publicId, displayName); the fields
    [name], [topic] and [server] are those reply.go reads, and the
    member display names are "an ordered sequence of current member
    display names" (section 6), which [Channel.Nicks()] returns. *)
Record Identity := mkIdentity {
  internalId : string;
  publicId : string;
  displayName : string
}.

Record Server := mkServer {
  server_identity : Identity;
  server_name : string
}.

Record Client := mkClient {
  client_identity : Identity
}.

Record Channel := mkChannel {
  channel_identity : Identity;
  server : Server;
  name : string;
  topic : string;
  members : list string
}.

Definition Nicks (channel : Channel) : list string := members channel.

#[export] Instance Server_Identifier : Identifier Server := {
  Id s := internalId (server_identity s);
  PublicId s := publicId (server_identity s);
  Nick s := displayName (server_identity s)
}.

#[export] Instance Client_Identifier : Identifier Client := {
  Id c := internalId (client_identity c);
  PublicId c := publicId (client_identity c);
  Nick c := displayName (client_identity c)
}.

#[export] Instance Channel_Identifier : Identifier Channel := {
  Id c := internalId (channel_identity c);
  PublicId c := publicId (channel_identity c);
  Nick c := displayName (channel_identity c)
}.

(** ** Replies *)

Record BaseReply := mkBaseReply {
  source : IdentifierValue;
  message : string
}.

Record StringReply := mkStringReply {
  sr_base : BaseReply;
  sr_code : string
}.

Record NumericReply := mkNumericReply {
  nr_base : BaseReply;
  nr_code : Z
}.

(** [NewStringReply]; [message] is the result of
    [fmt.Sprintf(format, args...)], which each caller spells out. *)
Definition NewStringReply {A} `{Identifier A} (src : A) (code message : string)
  : StringReply :=
  let fullMessage := ":" +:+ Id src +:+ " " +:+ code +:+ " " +:+ message in
  mkStringReply (mkBaseReply (AsIdentifier src) fullMessage) code.

Definition StringReply_Format (reply : StringReply) (client : Client)
  (write : list string) : list string :=
  write ++ [message (sr_base reply)].

(** [NewNumericReply], with the same convention for [message]. *)
Definition NewNumericReply {A} `{Identifier A} (src : A) (code : Z)
  (message : string) : NumericReply :=
  mkNumericReply (mkBaseReply (AsIdentifier src) message) code.

(** [fmt.Sprintf(":%s %03d %s %s", reply.Source().Id(), reply.code,
    client.Nick(), reply.message)] *)
Definition NumericReply_FormatString (reply : NumericReply) (client : Client)
  : string :=
  ":" +:+ IdOf (source (nr_base reply)) +:+ " " +:+ fmt_03d (nr_code reply)
      +:+ " " +:+ Nick client +:+ " " +:+ message (nr_base reply).

Definition NumericReply_Format (reply : NumericReply) (client : Client)
  (write : list string) : list string :=
  write ++ [NumericReply_FormatString reply client].

(** ** Reply constructors used by the names reply *)

(** The numeric codes are declared outside reply.go; the encoder is
    parametric in them. *)
Class Numerics := {
  RPL_NAMREPLY : Z;
  RPL_ENDOFNAMES : Z
}.

(** The values RFC 1459 assigns, used by the concrete scenarios. *)
Definition rfc1459 : Numerics :=
  {| RPL_NAMREPLY := 353; RPL_ENDOFNAMES := 366 |}.

(** [NewNumericReply(channel.server, RPL_NAMREPLY, "= %s :%s",
    channel.name, strings.Join(names, " "))] *)
Definition RplNamReply `{Numerics} (channel : Channel) (names : list string)
  : NumericReply :=
  NewNumericReply (server channel) RPL_NAMREPLY
    ("= " +:+ name channel +:+ " :" +:+ Join names " ").

Definition RplEndOfNames `{Numerics} {A} `{Identifier A} (src : A)
  : NumericReply :=
  NewNumericReply src RPL_ENDOFNAMES ":End of NAMES list".

(** ** The names reply *)

Definition MAX_REPLY_LEN : Z := 510.

(** The elements of [s] at the positions [lo], ..., [hi - 1]. *)
Definition window {A} (s : list A) (lo hi : Z) : list A :=
  take (Z.to_nat (hi - lo)) (drop (Z.to_nat lo) s).

(** [names[lo:hi]]; out of range is a run-time panic. *)
Definition slice {A} (s : list A) (lo hi : Z) : option (list A) :=
  if (0 <=? lo) && (lo <=? hi) && (hi <=? Z.of_nat (length s))
  then Some (window s lo hi)
  else None.

(** [names[lo:]] *)
Definition slice_from {A} (s : list A) (lo : Z) : option (list A) :=
  slice s lo (Z.of_nat (length s)).

Definition joinedLen (names : list string) : Z :=
  fold_left (λ l name, int_add l (len name)) names
            (Z.of_nat (length names) - 1).

Definition tooLong (baseLen : Z) (names : list string) : bool :=
  MAX_REPLY_LEN <? int_add baseLen (joinedLen names).

(** [for i := range indices { body }] over a loop state, stopping at the
    first panic. *)
Fixpoint range_loop {St} (body : Z → St → option St) (indices : list Z)
  (st : St) : option St :=
  match indices with
  | [] => Some st
  | i :: rest => st' ← body i st; range_loop body rest st'
  end.

(** One iteration of the loop of [NamesReply.Format]; the state is
    [start] and the lines written so far. *)
Definition names_iter `{Numerics} (channel : Channel) (client : Client)
  (baseLen : Z) (nicks : list string) (i : Z) (st : Z * list string)
  : option (Z * list string) :=
  let '(start, write) := st in
  if start <? i then
    candidate ← slice nicks start i;
    if tooLong baseLen candidate then
      names ← slice nicks start (i - 1);
      Some (i - 1,
            NumericReply_Format (RplNamReply channel names) client write)
    else Some (start, write)
  else Some (start, write).

(** The first part of [NamesReply.Format]: the prefix length and the loop
    over the indices of [nicks], from [start = 0]. *)
Definition names_loop `{Numerics} (channel : Channel) (client : Client)
  (write : list string) : option (Z * list string) :=
  let base := RplNamReply channel [] in
  let baseLen := len (NumericReply_FormatString base client) in
  let nicks := Nicks channel in
  range_loop (names_iter channel client baseLen nicks)
             (seqZ 0 (Z.of_nat (length nicks))) (0, write).

(** The body of [NamesReply.Format] once [reply.channel] is dereferenced:
    the loop, the final flush and the end of the list. *)
Definition NamesReply_Format_body `{Numerics} (channel : Channel)
  (client : Client) (write : list string) : option (list string) :=
  let nicks := Nicks channel in
  '(start, write) ← names_loop channel client write;
  write ← (if start <? Z.of_nat (length nicks) - 1 then
             names ← slice_from nicks start;
             Some (NumericReply_Format (RplNamReply channel names) client write)
           else Some write);
  Some (NumericReply_Format (RplEndOfNames channel) client write).

(** [*Channel]: an address in the store of channels. *)
Definition ChannelRef : Type := nat.

(** The embedded [BaseReply] of a names reply holds the channel reference
    as [source] and no message. *)
Record NamesReply := mkNamesReply {
  names_source : ChannelRef;
  names_channel : ChannelRef
}.

Definition NewNamesReply (channel : ChannelRef) : NamesReply :=
  {| names_source := channel; names_channel := channel |}.

Definition NamesReply_Format `{Numerics} (store : gmap nat Channel)
  (reply : NamesReply) (client : Client) (write : list string)
  : option (list string) :=
  channel ← store !! names_channel reply;
  NamesReply_Format_body channel client write.

(** The interface [Reply] (methods [Format] and [Source]) with its three
    implementations. *)
Inductive Reply :=
  | ReplyString (r : StringReply)
  | ReplyNumeric (r : NumericReply)
  | ReplyNames (r : NamesReply).

Definition Reply_Format `{Numerics} (store : gmap nat Channel) (reply : Reply)
  (client : Client) (write : list string) : option (list string) :=
  match reply with
  | ReplyString r => Some (StringReply_Format r client write)
  | ReplyNumeric r => Some (NumericReply_Format r client write)
  | ReplyNames r => NamesReply_Format store r client write
  end.

(** ** The member groups of a names reply *)

(** The argument of each [RplNamReply] whose line is written, in order:
    the same loop with the groups collected instead of their lines. *)
Definition groups_iter (baseLen : Z) (nicks : list string) (i : Z)
  (st : Z * list (list string)) : option (Z * list (list string)) :=
  let '(start, groups) := st in
  if start <? i then
    candidate ← slice nicks start i;
    if tooLong baseLen candidate then
      names ← slice nicks start (i - 1);
      Some (i - 1, groups ++ [names])
    else Some (start, groups)
  else Some (start, groups).

Definition groups_loop (baseLen : Z) (nicks : list string)
  : option (Z * list (list string)) :=
  range_loop (groups_iter baseLen nicks)
             (seqZ 0 (Z.of_nat (length nicks))) (0, []).

Definition groups_from (baseLen : Z) (nicks : list string)
  : option (list (list string)) :=
  '(start, groups) ← groups_loop baseLen nicks;
  if start <? Z.of_nat (length nicks) - 1 then
    names ← slice_from nicks start;
    Some (groups ++ [names])
  else Some groups.

Definition NamesReply_baseLen `{Numerics} (channel : Channel) (client : Client)
  : Z :=
  len (NumericReply_FormatString (RplNamReply channel []) client).

Definition NamesReply_groups `{Numerics} (channel : Channel) (client : Client)
  : option (list (list string)) :=
  groups_from (NamesReply_baseLen channel client) (Nicks channel).

Definition group_line `{Numerics} (channel : Channel) (client : Client)
  (names : list string) : string :=
  NumericReply_FormatString (RplNamReply channel names) client.

Definition terminator_line `{Numerics} (channel : Channel) (client : Client)
  : string :=
  NumericReply_FormatString (RplEndOfNames channel) client.

(** Between iterations [start] is [0] or at least two behind the index. *)
Definition cursor_ok (i start : Z) : Prop :=
  0 ≤ start ∧ (start = 0 ∨ start + 2 ≤ i).

(** What holds of the loop state before iteration [i]: the groups
    collected so far are the members before [start], at most one group
    per iteration. *)
Definition loop_coverage (nicks : list string) (i : Z)
  (st : Z * list (list string)) : Prop :=
  cursor_ok i st.1 ∧ concat st.2 = window nicks 0 st.1
  ∧ Z.of_nat (length st.2) ≤ i.

(** The state [(start, groups)] before iteration [i] of the loop. *)
Definition state_before (baseLen : Z) (nicks : list string) (i : Z)
  : option (Z * list (list string)) :=
  range_loop (groups_iter baseLen nicks) (seqZ 0 i) (0, []).

(** What holds before iteration [j] when the state was [(start0, groups0)]
    before iteration [j0]: nothing was written since, or the first group
    written since starts at [start0] and reaches index [j0 - 1] or
    further. *)
Definition loop_extends (nicks : list string) (j0 start0 : Z)
  (groups0 : list (list string)) (j : Z) (st : Z * list (list string))
  : Prop :=
  j0 ≤ j ∧ cursor_ok j st.1
  ∧ ((st.1 = start0 ∧ st.2 = groups0)
     ∨ ∃ e rest, j0 - 1 ≤ e ∧ st.2 = groups0 ++ window nicks start0 e :: rest).

Definition total_len (names : list string) : Z :=
  foldr (λ name acc, len name + acc) 0 names.

(** The joined length of a group without machine arithmetic: the bytes
    of the names and one separator between neighbours. *)
Definition joinedZ (names : list string) : Z :=
  Z.of_nat (length names) - 1 + total_len names.

(** A group whose line is within the ceiling. *)
Definition within_budget (baseLen : Z) (names : list string) : Prop :=
  baseLen + len (Join names " ") ≤ MAX_REPLY_LEN.

(** What holds of the loop state before iteration [i] when every member
    fits on a line of its own: the groups collected so far are within
    the ceiling, and so are the members from [start] up to the one
    before the last index seen. *)
Definition loop_budget (baseLen : Z) (nicks : list string) (i : Z)
  (st : Z * list (list string)) : Prop :=
  cursor_ok i st.1
  ∧ Forall (within_budget baseLen) st.2
  ∧ (window nicks st.1 (i - 1) = []
     ∨ baseLen + joinedZ (window nicks st.1 (i - 1)) ≤ MAX_REPLY_LEN).

(** ** Concrete scenarios *)

Module Scenario.

Definition ident (s : string) : Identity := mkIdentity s s s.

Definition irc_server : Server := mkServer (ident "irc.example") "irc.example".

Definition room (nicks : list string) : Channel :=
  mkChannel (ident "#room") irc_server "#room" "" nicks.

Definition bob : Client := mkClient (ident "bob").

(** A recipient whose display name is a hundred bytes long. *)
Definition longbob : Client := mkClient (ident (Repeat "b"%char 100)).

(** A recipient whose display name alone exceeds the ceiling. *)
Definition hugebob : Client := mkClient (ident (Repeat "b"%char 600)).

Definition nick_of (c : ascii) (n : nat) : string := Repeat c n.

Definition alice_room : Channel := room ["alice"].

(** The store when a names reply is built, and after "dave" has joined. *)
Definition room_ref : ChannelRef := 7%nat.

Definition store_at_construction : gmap nat Channel :=
  <[room_ref := room ["alice"; "carol"]]> ∅.

Definition store_later : gmap nat Channel :=
  <[room_ref := room ["alice"; "carol"; "dave"]]> store_at_construction.

(** Two members of 300 bytes each. *)
Definition pair_room : Channel := room [nick_of "a" 300; nick_of "c" 300].

(** For the recipient [bob] the prefix has 30 bytes; the first two members
    below, joined, have 480. *)
Definition exact_room : Channel :=
  room [nick_of "a" 200; nick_of "c" 279; "dave"].

(** A first member that is too long for any line, then two of 200 bytes. *)
Definition oversized_room : Channel :=
  room [nick_of "a" 600; nick_of "c" 200; nick_of "d" 200].

(** Three members of 200 bytes each. *)
Definition long_room : Channel :=
  room [nick_of "a" 200; nick_of "c" 200; nick_of "d" 200].

End Scenario.

(** ** Notions for the further properties *)

(** The number a string of decimal digits stands for. *)
Definition digit_value (c : ascii) : Z := Z.of_nat (nat_of_ascii c) - 48.

Fixpoint digits_value (s : string) : Z :=
  match s with
  | EmptyString => 0
  | String c rest =>
      digit_value c * 10 ^ Z.of_nat (String.length rest) + digits_value rest
  end.

(** What holds of the loop state before iteration [i] about groups
    without members: none is collected before index 1, none after the
    first group, and the first group is without members exactly when
    the first member alone is too long. *)
Definition loop_nonempty (baseLen : Z) (nicks : list string) (i : Z)
  (st : Z * list (list string)) : Prop :=
  cursor_ok i st.1
  ∧ (i ≤ 1 → st.2 = [])
  ∧ Forall (λ g, g ≠ []) (drop 1 st.2)
  ∧ (2 ≤ i →
     head st.2 = Some [] ↔ tooLong baseLen (window nicks 0 1) = true).

(** Groups that are packed: no group could have taken the first member
    of the group after it, by the test of the loop. *)
Definition packed (baseLen : Z) (groups : list (list string)) : Prop :=
  ∀ (k : nat) (g g' : list string) (m : string),
    groups !! k = Some g → groups !! S k = Some g' → head g' = Some m →
    tooLong baseLen (g ++ [m]) = true.

(** What holds of the loop state before iteration [i] about packing:
    the groups collected are packed, and the last of them could not
    have taken the member at [start]. *)
Definition loop_packed (baseLen : Z) (nicks : list string) (i : Z)
  (st : Z * list (list string)) : Prop :=
  cursor_ok i st.1
  ∧ packed baseLen st.2
  ∧ ∀ (g : list string) (m : string),
      last st.2 = Some g → nicks !! Z.to_nat st.1 = Some m →
      tooLong baseLen (g ++ [m]) = true.

(** ** Further scenarios *)

Module Crowd.

(** Forty-nine members with a nine-byte name each. *)
Definition nine_room : Channel :=
  Scenario.room (replicate 49 "nickname9").

(** One member whose name fills the line of [Scenario.bob] exactly:
    30 bytes of prefix and 480 of name. *)
Definition exact_single_room : Channel :=
  Scenario.room [Scenario.nick_of "a" 480].

(** A second room in the store, which "frank" joins later. *)
Definition lobby_ref : ChannelRef := 8%nat.

Definition store_two_rooms : gmap nat Channel :=
  <[lobby_ref := Scenario.room ["eve"]]> Scenario.store_at_construction.

Definition store_two_rooms_later : gmap nat Channel :=
  <[lobby_ref := Scenario.room ["eve"; "frank"]]> store_two_rooms.

(** Another connection with the display name of [Scenario.bob]. *)
Definition bob_elsewhere : Client :=
  mkClient (mkIdentity "bob!b@elsewhere" "bob@elsewhere" "bob").

End Crowd.

(** * Properties *)

(** ** Strings and machine integers *)

Lemma len_app (a b : string) : len (a +:+ b) = len a + len b.
Proof.
  unfold len. induction a as [|c a IH].
  - reflexivity.
  - change (String c a +:+ b) with (String c (a +:+ b)).
    cbn [String.length]. lia.
Qed.

Lemma len_nonneg (s : string) : 0 ≤ len s.
Proof. unfold len. lia. Qed.

Lemma len_Repeat c n : len (Repeat c n) = Z.of_nat n.
Proof. unfold len. induction n as [|n IH]; cbn [Repeat String.length]; lia. Qed.

Lemma wrap_int_id (z : Z) : int_min ≤ z ≤ int_max → wrap_int z = z.
Proof.
  unfold wrap_int, int_min, int_max. intros Hz.
  rewrite Z.mod_small by lia. lia.
Qed.

Lemma int_add_id (a b : Z) : int_min ≤ a + b ≤ int_max → int_add a b = a + b.
Proof. apply wrap_int_id. Qed.

(** ** Slices *)

Lemma slice_in_range {A} (s : list A) (lo hi : Z) :
  0 ≤ lo → lo ≤ hi → hi ≤ Z.of_nat (length s) →
  slice s lo hi = Some (window s lo hi).
Proof.
  intros H1 H2 H3. unfold slice.
  rewrite (proj2 (Z.leb_le 0 lo)), (proj2 (Z.leb_le lo hi)),
    (proj2 (Z.leb_le hi _)) by assumption.
  reflexivity.
Qed.

Lemma window_nil {A} (s : list A) (lo : Z) : window s lo lo = [].
Proof. unfold window. by rewrite Z.sub_diag. Qed.

Lemma window_all {A} (s : list A) : window s 0 (Z.of_nat (length s)) = s.
Proof.
  unfold window. rewrite Z.sub_0_r, Nat2Z.id. cbn [Z.to_nat drop].
  apply firstn_all.
Qed.

Lemma window_app {A} (s : list A) (a b c : Z) :
  0 ≤ a → a ≤ b → b ≤ c → window s a b ++ window s b c = window s a c.
Proof.
  intros Ha Hab Hbc. unfold window.
  replace (Z.to_nat b) with (Z.to_nat a + Z.to_nat (b - a))%nat by lia.
  rewrite <- drop_drop, take_take_drop. f_equal. lia.
Qed.

Lemma window_snoc {A} (s : list A) (a b : Z) (x : A) :
  0 ≤ a → a ≤ b → s !! Z.to_nat b = Some x →
  window s a (b + 1) = window s a b ++ [x].
Proof.
  intros Ha Hab Hx. rewrite <- (window_app s a b (b + 1)) by lia. f_equal.
  unfold window. replace (Z.to_nat (b + 1 - b)) with 1%nat by lia.
  rewrite (drop_S _ _ _ Hx). reflexivity.
Qed.

Lemma length_window {A} (s : list A) (a b : Z) :
  0 ≤ a → a ≤ b → b ≤ Z.of_nat (length s) →
  Z.of_nat (length (window s a b)) = b - a.
Proof.
  intros Ha Hab Hb. unfold window. rewrite length_take, length_drop. lia.
Qed.

(** ** A loop rule for [range_loop] *)

Lemma range_loop_invariant {St} (body : Z → St → option St)
  (P : Z → St → Prop) (n : Z) :
  (∀ i st, 0 ≤ i < n → P i st → ∃ st', body i st = Some st' ∧ P (i + 1) st') →
  ∀ (k : nat) (i : Z) (st : St),
    0 ≤ i → i + Z.of_nat k ≤ n → P i st →
    ∃ st', range_loop body (seqZ i (Z.of_nat k)) st = Some st'
           ∧ P (i + Z.of_nat k) st'.
Proof.
  intros Hstep k. induction k as [|k IH]; intros i st Hi Hn HP.
  - exists st. rewrite Z.add_0_r. split; [reflexivity | assumption].
  - rewrite seqZ_cons by lia. cbn [range_loop].
    destruct (Hstep i st) as (st1 & Hb & HP1); [lia | assumption |].
    rewrite Hb. cbn [mbind option_bind].
    replace (Z.pred (Z.of_nat (S k))) with (Z.of_nat k) by lia.
    destruct (IH (Z.succ i) st1) as (st2 & Hl & HP2); [lia | lia | |].
    + replace (Z.succ i) with (i + 1) by lia. assumption.
    + exists st2. split; [assumption |].
      replace (i + Z.of_nat (S k)) with (Z.succ i + Z.of_nat k) by lia.
      assumption.
Qed.

(** ** One iteration *)

Lemma groups_iter_cases (baseLen : Z) (nicks : list string) (i start : Z)
  (groups : list (list string)) :
  cursor_ok i start → 0 ≤ i < Z.of_nat (length nicks) →
  groups_iter baseLen nicks i (start, groups) =
    if (1 <=? i) && tooLong baseLen (window nicks start i)
    then Some (i - 1, groups ++ [window nicks start (i - 1)])
    else Some (start, groups).
Proof.
  intros [H0 Hc] Hi. unfold groups_iter.
  destruct (Z.leb_spec 1 i) as [H1|H1]; cbn [andb].
  - rewrite (proj2 (Z.ltb_lt start i)) by lia.
    rewrite (slice_in_range nicks start i) by lia. cbn [mbind option_bind].
    destruct (tooLong baseLen (window nicks start i)); [|reflexivity].
    rewrite (slice_in_range nicks start (i - 1)) by lia. reflexivity.
  - rewrite (proj2 (Z.ltb_ge start i)) by lia. reflexivity.
Qed.

Lemma names_iter_groups_iter `{Numerics} (channel : Channel) (client : Client)
  (baseLen : Z) (nicks : list string) (i start : Z) (write : list string)
  (groups : list (list string)) :
  names_iter channel client baseLen nicks i
    (start, write ++ (group_line channel client <$> groups)) =
  (λ st, (st.1, write ++ (group_line channel client <$> st.2)))
    <$> groups_iter baseLen nicks i (start, groups).
Proof.
  unfold names_iter, groups_iter.
  destruct (start <? i); [|reflexivity].
  destruct (slice nicks start i) as [w|]; [|reflexivity].
  cbn [mbind option_bind].
  destruct (tooLong baseLen w); [|reflexivity].
  destruct (slice nicks start (i - 1)) as [g|]; [|reflexivity].
  cbn [mbind option_bind fmap option_fmap option_map fst snd].
  unfold NumericReply_Format. rewrite fmap_app, app_assoc. reflexivity.
Qed.

Lemma names_range_groups_range `{Numerics} (channel : Channel)
  (client : Client) (baseLen : Z) (nicks : list string) (write : list string)
  (indices : list Z) :
  ∀ (start : Z) (groups : list (list string)),
    range_loop (names_iter channel client baseLen nicks) indices
      (start, write ++ (group_line channel client <$> groups)) =
    (λ st, (st.1, write ++ (group_line channel client <$> st.2)))
      <$> range_loop (groups_iter baseLen nicks) indices (start, groups).
Proof.
  induction indices as [|i rest IH]; intros start groups.
  - reflexivity.
  - cbn [range_loop]. rewrite names_iter_groups_iter.
    destruct (groups_iter baseLen nicks i (start, groups)) as [[s g]|];
      [|reflexivity].
    cbn [mbind option_bind fmap option_fmap option_map fst snd].
    apply IH.
Qed.

(** The lines written by the loop are the lines of the groups. *)
Lemma names_loop_groups_loop `{Numerics} (channel : Channel) (client : Client)
  (write : list string) :
  names_loop channel client write =
  (λ st, (st.1, write ++ (group_line channel client <$> st.2)))
    <$> groups_loop (NamesReply_baseLen channel client) (Nicks channel).
Proof.
  unfold names_loop, groups_loop.
  rewrite <- names_range_groups_range. cbn [fmap list_fmap].
  rewrite app_nil_r. reflexivity.
Qed.

(** The lines written by [NamesReply.Format] are the lines of its groups
    followed by the terminator. *)
Lemma NamesReply_Format_body_groups `{Numerics} (channel : Channel)
  (client : Client) (write : list string) :
  NamesReply_Format_body channel client write =
  (λ groups, write ++ (group_line channel client <$> groups)
                   ++ [terminator_line channel client])
    <$> NamesReply_groups channel client.
Proof.
  unfold NamesReply_Format_body, NamesReply_groups, groups_from.
  rewrite names_loop_groups_loop.
  destruct (groups_loop _ _) as [[start groups]|]; [|reflexivity].
  cbn [mbind option_bind fmap option_fmap option_map fst snd].
  destruct (start <? _).
  - destruct (slice_from (Nicks channel) start) as [g|]; [|reflexivity].
    cbn [mbind option_bind fmap option_fmap option_map].
    unfold NumericReply_Format, terminator_line.
    rewrite fmap_app. cbn [fmap list_fmap]. unfold group_line at 3.
    rewrite <- !app_assoc. reflexivity.
  - cbn [mbind option_bind fmap option_fmap option_map].
    unfold NumericReply_Format, terminator_line.
    rewrite <- !app_assoc. reflexivity.
Qed.

(** ** Coverage of the groups *)

Lemma groups_iter_coverage (baseLen : Z) (nicks : list string) (i : Z)
  (st : Z * list (list string)) :
  0 ≤ i < Z.of_nat (length nicks) →
  loop_coverage nicks i st →
  ∃ st', groups_iter baseLen nicks i st = Some st'
         ∧ loop_coverage nicks (i + 1) st'.
Proof.
  destruct st as [start groups]. unfold loop_coverage. cbn [fst snd].
  intros Hi (Hc & Hcat & Hlen).
  rewrite groups_iter_cases by assumption.
  destruct Hc as [H0 Hc].
  destruct ((1 <=? i) && tooLong baseLen (window nicks start i)) eqn:E.
  - apply andb_true_iff in E as [E1%Z.leb_le _].
    eexists. split; [reflexivity|]. repeat split; cbn [fst snd].
    + lia.
    + lia.
    + rewrite concat_app, Hcat. cbn [concat]. rewrite app_nil_r.
      apply window_app; lia.
    + rewrite length_app. cbn [length]. lia.
  - eexists. split; [reflexivity|]. repeat split; cbn [fst snd];
      [lia | lia | assumption | lia].
Qed.

Lemma groups_loop_coverage (baseLen : Z) (nicks : list string) :
  ∃ st, groups_loop baseLen nicks = Some st
        ∧ loop_coverage nicks (Z.of_nat (length nicks)) st.
Proof.
  unfold groups_loop.
  assert (Hinit : loop_coverage nicks 0 (0, [])).
  { unfold loop_coverage, cursor_ok. cbn [fst snd length concat].
    rewrite window_nil. split; [lia | split; [reflexivity | lia]]. }
  destruct (range_loop_invariant (groups_iter baseLen nicks)
              (loop_coverage nicks) (Z.of_nat (length nicks))
              (groups_iter_coverage baseLen nicks)
              (length nicks) 0 (0, []) ltac:(lia) ltac:(lia) Hinit)
    as (st & Hl & HP).
  exists st. split; assumption.
Qed.

(** The groups of a member sequence, whatever the prefix length: they
    always exist, there are at most one per member plus one, and put end
    to end they are the whole sequence when it has two members or more,
    and nothing otherwise. *)
Lemma groups_from_concat (baseLen : Z) (nicks : list string) :
  ∃ groups, groups_from baseLen nicks = Some groups
    ∧ concat groups = (if 2 <=? Z.of_nat (length nicks) then nicks else [])
    ∧ (length groups ≤ length nicks + 1)%nat.
Proof.
  destruct (groups_loop_coverage baseLen nicks)
    as ([start groups] & Hl & (H0 & Hc) & Hcat & Hlen).
  cbn [fst snd] in *. unfold groups_from. rewrite Hl.
  cbn [mbind option_bind].
  destruct (Z.ltb_spec start (Z.of_nat (length nicks) - 1)) as [Hlt|Hge].
  - unfold slice_from. rewrite slice_in_range by lia.
    cbn [mbind option_bind]. eexists. split; [reflexivity|]. split.
    + rewrite (proj2 (Z.leb_le 2 _)) by lia.
      rewrite concat_app, Hcat. cbn [concat]. rewrite app_nil_r.
      rewrite window_app by lia. apply window_all.
    + rewrite length_app. cbn [length]. lia.
  - assert (start = 0) as -> by lia.
    exists groups. split; [reflexivity|]. split; [|lia].
    rewrite (proj2 (Z.leb_gt 2 _)) by lia.
    rewrite Hcat. apply window_nil.
Qed.

Lemma NamesReply_groups_concat `{Numerics} (channel : Channel)
  (client : Client) :
  ∃ groups, NamesReply_groups channel client = Some groups
    ∧ concat groups = (if 2 <=? Z.of_nat (length (Nicks channel))
                       then Nicks channel else [])
    ∧ (length groups ≤ length (Nicks channel) + 1)%nat.
Proof. apply groups_from_concat. Qed.

(** With two members or more, no member is lost, repeated or moved. *)
Lemma NamesReply_groups_cover `{Numerics} (channel : Channel)
  (client : Client) :
  2 ≤ Z.of_nat (length (Nicks channel)) →
  ∃ groups, NamesReply_groups channel client = Some groups
            ∧ concat groups = Nicks channel.
Proof.
  intros Hn.
  destruct (NamesReply_groups_concat channel client) as (gs & Hg & Hcat & _).
  exists gs. split; [assumption|].
  rewrite Hcat, (proj2 (Z.leb_le 2 _)) by assumption. reflexivity.
Qed.

(** With two members or more the final flush is always written, and it
    holds the last two members at least. *)
Lemma final_flush_holds_last_members `{Numerics} (channel : Channel)
  (client : Client) :
  2 ≤ Z.of_nat (length (Nicks channel)) →
  ∃ start groups,
    groups_loop (NamesReply_baseLen channel client) (Nicks channel)
    = Some (start, groups)
    ∧ 0 ≤ start ∧ start + 2 ≤ Z.of_nat (length (Nicks channel))
    ∧ NamesReply_groups channel client
      = Some (groups ++ [window (Nicks channel) start
                           (Z.of_nat (length (Nicks channel)))]).
Proof.
  intros Hn.
  destruct (groups_loop_coverage (NamesReply_baseLen channel client)
              (Nicks channel)) as ([start groups] & Hl & (H0 & Hc) & _).
  cbn [fst snd] in *. exists start, groups.
  split; [exact Hl|]. split; [lia|]. split; [lia|].
  unfold NamesReply_groups, groups_from. rewrite Hl.
  cbn [mbind option_bind].
  rewrite (proj2 (Z.ltb_lt start _)) by lia.
  unfold slice_from. rewrite slice_in_range by lia. reflexivity.
Qed.

(** A first member too long for any line: the loop writes a line without
    members, then the long member on a line of its own, and goes on. *)
Example oversized_member_groups :
  option_map (map (map len))
    (@NamesReply_groups rfc1459 Scenario.oversized_room Scenario.bob)
  = Some [[]; [600]; [200; 200]].
Proof. vm_compute. reflexivity. Qed.

(** ** Properties of the specification *)

(** C2 (coverage), at the failing input.  A room whose only member is
    "alice": the loop writes nothing, the final flush is skipped because
    [start < len(nicks) - 1] is [0 < 0], and the groups written are none;
    put end to end they are the empty sequence, not ["alice"]. *)
Theorem C2_single_member_not_covered :
  ∃ groups,
    @NamesReply_groups rfc1459 Scenario.alice_room Scenario.bob = Some groups
    ∧ groups = []
    ∧ concat groups ≠ Nicks Scenario.alice_room.
Proof.
  exists []. split; [vm_compute; reflexivity|]. split; [reflexivity|].
  discriminate.
Qed.

(** C3 (single short member), at the failing input.  For the member
    sequence ["alice"] the encoder writes one line only, the terminator;
    no group line carries "alice". *)
Theorem C3_single_member_only_terminator :
  @NamesReply_Format_body rfc1459 Scenario.alice_room Scenario.bob []
  = Some [":#room 366 bob :End of NAMES list"].
Proof. vm_compute. reflexivity. Qed.

(** C4 (terminator).  For every room, recipient and sink, the lines
    written are the group lines followed by one terminator line, which
    is the last line; its payload is the literal ":End of NAMES list",
    which no group reply carries; and for a room without members the
    terminator is the only line written. *)
Theorem C4_one_terminator_last `{Numerics} :
  (∀ (channel : Channel) (client : Client) (write : list string),
     ∃ groups,
       NamesReply_groups channel client = Some groups
       ∧ NamesReply_Format_body channel client write
         = Some (write ++ (group_line channel client <$> groups)
                       ++ [terminator_line channel client]))
  ∧ (∀ (channel : Channel) (client : Client),
       terminator_line channel client
       = ":" +:+ Id channel +:+ " " +:+ fmt_03d RPL_ENDOFNAMES +:+ " "
             +:+ Nick client +:+ " " +:+ ":End of NAMES list")
  ∧ (∀ (channel : Channel),
       message (nr_base (RplEndOfNames channel)) = ":End of NAMES list")
  ∧ (∀ (channel : Channel) (names : list string),
       message (nr_base (RplNamReply channel names)) ≠ ":End of NAMES list")
  ∧ (∀ (ident : Identity) (srv : Server) (room topic : string)
       (client : Client) (write : list string),
       let channel := mkChannel ident srv room topic [] in
       NamesReply_Format_body channel client write
       = Some (write ++ [terminator_line channel client])).
Proof.
  split; [|split; [|split; [|split]]].
  - intros channel client write.
    destruct (NamesReply_groups_concat channel client) as (gs & Hg & _).
    exists gs. split; [assumption|].
    rewrite NamesReply_Format_body_groups, Hg. reflexivity.
  - reflexivity.
  - reflexivity.
  - intros channel names. cbn [RplNamReply NewNumericReply nr_base message].
    change ("= " +:+ name channel +:+ " :" +:+ Join names " ")
      with (String "="%char (" " +:+ name channel +:+ " :" +:+ Join names " ")).
    discriminate.
  - intros ident srv room topic client write channel.
    rewrite NamesReply_Format_body_groups. reflexivity.
Qed.

(** C6 (recipient sensitivity).  Two recipients of the same room get
    groups that, put end to end, are the same member sequence; the
    groups themselves can differ, as they do for three members of 200
    bytes sent to a recipient named in 3 bytes and to one named in 100. *)
Theorem C6_same_coverage_for_two_recipients `{Numerics} :
  (∀ (channel : Channel) (client1 client2 : Client),
     ∃ groups1 groups2,
       NamesReply_groups channel client1 = Some groups1
       ∧ NamesReply_groups channel client2 = Some groups2
       ∧ concat groups1 = concat groups2)
  ∧ @NamesReply_groups rfc1459 Scenario.long_room Scenario.bob
    ≠ @NamesReply_groups rfc1459 Scenario.long_room Scenario.longbob.
Proof.
  split.
  - intros channel client1 client2.
    destruct (NamesReply_groups_concat channel client1) as (g1 & H1 & E1 & _).
    destruct (NamesReply_groups_concat channel client2) as (g2 & H2 & E2 & _).
    exists g1, g2. rewrite E1, E2. auto.
  - vm_compute. discriminate.
Qed.

(** C10 (termination).  For every room, oversized members included,
    the loop comes to its end with some [start], [NamesReply.Format]
    returns, and it has written at most one line per member and two
    more. *)
Theorem C10_Format_terminates `{Numerics} (channel : Channel)
  (client : Client) (write : list string) :
  ∃ start written out,
    names_loop channel client write = Some (start, written)
    ∧ NamesReply_Format_body channel client write = Some out
    ∧ (length out ≤ length write + length (Nicks channel) + 2)%nat.
Proof.
  destruct (groups_loop_coverage (NamesReply_baseLen channel client)
              (Nicks channel)) as ([start gs] & Hl & _).
  destruct (NamesReply_groups_concat channel client) as (groups & Hg & _ & Hn).
  eexists start, _, _. split; [|split].
  - rewrite names_loop_groups_loop, Hl. reflexivity.
  - rewrite NamesReply_Format_body_groups, Hg. reflexivity.
  - rewrite !length_app, length_fmap. cbn [length]. lia.
Qed.

(** ** Encoding twice *)

(** What [Format] appends does not depend on what the sink holds. *)
Lemma Reply_Format_appends `{Numerics} (store : gmap nat Channel)
  (reply : Reply) (client : Client) (write : list string) :
  Reply_Format store reply client write
  = (λ lines, write ++ lines) <$> Reply_Format store reply client [].
Proof.
  destruct reply as [r|r|r]; cbn [Reply_Format]; try reflexivity.
  unfold NamesReply_Format.
  destruct (store !! names_channel r) as [channel|]; [|reflexivity].
  cbn [mbind option_bind].
  rewrite !NamesReply_Format_body_groups.
  destruct (NamesReply_groups channel client) as [groups|]; reflexivity.
Qed.

(** ** Construction time and encoding time *)

Lemma NamesReply_Format_lookup `{Numerics} (store : gmap nat Channel)
  (ref : ChannelRef) (channel : Channel) (client : Client)
  (write : list string) :
  NamesReply_Format (<[ref := channel]> store) (NewNamesReply ref) client write
  = NamesReply_Format_body channel client write.
Proof.
  unfold NamesReply_Format, NewNamesReply. cbn [names_channel].
  rewrite lookup_insert_eq. reflexivity.
Qed.

(** C5, as the claim states it, fails: a reply built while the room held
    alice and carol, and encoded after dave has joined, lists dave; the
    lines are not those of the membership at construction. *)
Lemma C5_membership_read_at_encoding :
  @NamesReply_Format rfc1459 Scenario.store_later
     (NewNamesReply Scenario.room_ref) Scenario.bob []
  ≠ @NamesReply_Format rfc1459 Scenario.store_at_construction
      (NewNamesReply Scenario.room_ref) Scenario.bob [].
Proof.
  unfold Scenario.store_later, Scenario.store_at_construction.
  rewrite !NamesReply_Format_lookup. vm_compute. discriminate.
Qed.

(** C5, amended.  [NewNamesReply] keeps the reference to the room, not
    its members; [Format] reads the members through the reference when
    it encodes.  Whatever the store held when the reply was built, the
    lines written are those of the members the room has in the store at
    encoding time. *)
Theorem C5_lines_of_encoding_time_membership `{Numerics}
  (store_then : gmap nat Channel) (ref : ChannelRef) (now : Channel)
  (client : Client) (write : list string) :
  let reply := NewNamesReply ref in
  let store_now := <[ref := now]> store_then in
  names_channel reply = ref
  ∧ NamesReply_Format store_now reply client write
    = NamesReply_Format_body now client write
  ∧ ∃ groups,
      groups_from (NamesReply_baseLen now client) (Nicks now) = Some groups
      ∧ NamesReply_Format store_now reply client write
        = Some (write ++ (group_line now client <$> groups)
                      ++ [terminator_line now client]).
Proof.
  intros reply store_now. split; [reflexivity|]. split.
  - apply NamesReply_Format_lookup.
  - destruct (NamesReply_groups_concat now client) as (gs & Hg & _).
    exists gs. split; [exact Hg|].
    unfold store_now, reply.
    rewrite NamesReply_Format_lookup, NamesReply_Format_body_groups, Hg.
    reflexivity.
Qed.

(** ** The status code *)

Lemma fmt_03d_three_digits (code : Z) :
  0 ≤ code ≤ 999 → fmt_03d code = three_digits code.
Proof.
  intros Hc.
  assert (Hall : forallb (λ n, String.eqb (fmt_03d (Z.of_nat n))
                                          (three_digits (Z.of_nat n)))
                         (seq 0 1000) = true) by (vm_compute; reflexivity).
  rewrite forallb_forall in Hall.
  specialize (Hall (Z.to_nat code)).
  rewrite Z2Nat.id in Hall by lia.
  apply String.eqb_eq, Hall, in_seq. lia.
Qed.

(** C9 (status code).  A numeric reply whose code is between 0 and 999
    renders the code as its three decimal digits, hundreds, tens and
    units, zeros included, between the source identity and the
    recipient's display name. *)
Theorem C9_code_rendered_as_three_digits (reply : NumericReply)
  (client : Client) :
  0 ≤ nr_code reply ≤ 999 →
  fmt_03d (nr_code reply) = three_digits (nr_code reply)
  ∧ String.length (fmt_03d (nr_code reply)) = 3%nat
  ∧ NumericReply_FormatString reply client
    = ":" +:+ IdOf (source (nr_base reply)) +:+ " "
          +:+ three_digits (nr_code reply) +:+ " "
          +:+ Nick client +:+ " " +:+ message (nr_base reply).
Proof.
  intros Hc. unfold NumericReply_FormatString.
  rewrite (fmt_03d_three_digits _ Hc). repeat split.
Qed.

(** Codes 1 and 353 render as "001" and "353". *)
Lemma C9_code_1_and_353 :
  (0 ≤ 1 ≤ 999
   ∧ NumericReply_FormatString
       (NewNumericReply Scenario.irc_server 1 ":Welcome") Scenario.bob
     = ":irc.example 001 bob :Welcome")
  ∧ (0 ≤ 353 ≤ 999
     ∧ NumericReply_FormatString
         (NewNumericReply Scenario.irc_server 353 "= #room :alice")
         Scenario.bob
       = ":irc.example 353 bob = #room :alice").
Proof.
  split.
  - split; [lia|].
    exact (proj2 (proj2 (C9_code_rendered_as_three_digits
             (NewNumericReply Scenario.irc_server 1 ":Welcome") Scenario.bob
             ltac:(cbn; lia)))).
  - split; [lia|].
    exact (proj2 (proj2 (C9_code_rendered_as_three_digits
             (NewNumericReply Scenario.irc_server 353 "= #room :alice")
             Scenario.bob ltac:(cbn; lia)))).
Defined.

(** ** Lengths of groups *)

Lemma total_len_nonneg (names : list string) : 0 ≤ total_len names.
Proof.
  induction names as [|m names IH]; cbn [total_len foldr]; [lia|].
  fold (total_len names). pose proof (len_nonneg m). lia.
Qed.

Lemma total_len_snoc (names : list string) (m : string) :
  total_len (names ++ [m]) = total_len names + len m.
Proof.
  induction names as [|x names IH]; cbn [total_len foldr app].
  - lia.
  - fold (total_len (names ++ [m])). fold (total_len names). lia.
Qed.

Lemma joinedZ_snoc (names : list string) (m : string) :
  joinedZ (names ++ [m]) = joinedZ names + 1 + len m.
Proof.
  unfold joinedZ. rewrite total_len_snoc, length_app. cbn [length]. lia.
Qed.

Lemma joinedZ_lower (names : list string) : -1 ≤ joinedZ names.
Proof. unfold joinedZ. pose proof (total_len_nonneg names). lia. Qed.

Lemma fold_int_add_exact (names : list string) :
  ∀ acc, -1 ≤ acc → acc + total_len names ≤ int_max →
    fold_left (λ l name, int_add l (len name)) names acc
    = acc + total_len names.
Proof.
  induction names as [|m names IH]; intros acc Hlo Hhi;
    cbn [fold_left total_len foldr].
  - lia.
  - fold (total_len names) in *. cbn [total_len foldr] in Hhi.
    fold (total_len names) in Hhi.
    pose proof (len_nonneg m). pose proof (total_len_nonneg names).
    rewrite int_add_id by (unfold int_min; lia).
    rewrite IH by lia. lia.
Qed.

(** As long as the mathematical sum is an [int], [joinedLen] computes it. *)
Lemma joinedLen_exact (names : list string) :
  joinedZ names ≤ int_max → joinedLen names = joinedZ names.
Proof.
  unfold joinedZ, joinedLen. intros H.
  apply fold_int_add_exact; lia.
Qed.

Lemma tooLong_exact (baseLen : Z) (names : list string) :
  0 ≤ baseLen → baseLen + joinedZ names ≤ int_max →
  tooLong baseLen names = (MAX_REPLY_LEN <? baseLen + joinedZ names).
Proof.
  intros H0 H. pose proof (joinedZ_lower names). unfold tooLong.
  rewrite joinedLen_exact by lia.
  rewrite int_add_id by (unfold int_min; lia). reflexivity.
Qed.

Lemma len_Join (names : list string) :
  names ≠ [] → len (Join names " ") = joinedZ names.
Proof.
  induction names as [|m names IH]; [congruence|]. intros _.
  destruct names as [|m' names].
  - cbn [Join]. unfold joinedZ. cbn [length total_len foldr]. lia.
  - change (Join (m :: m' :: names) " ")
      with (m +:+ " " +:+ Join (m' :: names) " ").
    rewrite !len_app, IH by congruence.
    unfold joinedZ. cbn [length total_len foldr].
    change (len " ") with 1. lia.
Qed.

Lemma len_group_line `{Numerics} (channel : Channel) (client : Client)
  (names : list string) :
  len (group_line channel client names)
  = NamesReply_baseLen channel client + len (Join names " ").
Proof.
  unfold NamesReply_baseLen, group_line, NumericReply_FormatString.
  cbn [RplNamReply NewNumericReply nr_base nr_code message source].
  rewrite !len_app. cbn [Join]. change (len "") with 0. lia.
Qed.

Lemma NamesReply_baseLen_nonneg `{Numerics} (channel : Channel)
  (client : Client) : 0 ≤ NamesReply_baseLen channel client.
Proof. apply len_nonneg. Qed.

(** ** The budget of the lines written by the loop *)

Section Budget.

Variable baseLen : Z.
Variable nicks : list string.
Hypothesis baseLen_nonneg : 0 ≤ baseLen.
Hypothesis each_fits : Forall (λ m, baseLen + len m ≤ MAX_REPLY_LEN) nicks.

Lemma within_budget_of_fit (names : list string) :
  baseLen ≤ MAX_REPLY_LEN →
  names = [] ∨ baseLen + joinedZ names ≤ MAX_REPLY_LEN →
  within_budget baseLen names.
Proof.
  unfold within_budget. intros Hb [->|Hfit].
  - cbn [Join]. change (len "") with 0. lia.
  - destruct names as [|m names]; [cbn [Join]; change (len "") with 0; lia|].
    rewrite len_Join by congruence. assumption.
Qed.

Lemma groups_iter_budget (i : Z) (st : Z * list (list string)) :
  0 ≤ i < Z.of_nat (length nicks) →
  loop_budget baseLen nicks i st →
  ∃ st', groups_iter baseLen nicks i st = Some st'
         ∧ loop_budget baseLen nicks (i + 1) st'.
Proof.
  destruct st as [start groups]. unfold loop_budget. cbn [fst snd].
  intros Hi (Hc & Hall & Hprev).
  rewrite groups_iter_cases by assumption.
  destruct Hc as [H0 Hc].
  replace (i + 1 - 1) with i by lia.
  destruct (Z.leb_spec 1 i) as [H1|H1]; cbn [andb].
  - destruct (lookup_lt_is_Some_2 nicks (Z.to_nat (i - 1))) as [m Hm]; [lia|].
    assert (Hfit : baseLen + len m ≤ MAX_REPLY_LEN).
    { exact (proj1 (Forall_lookup _ _) each_fits _ _ Hm). }
    pose proof (len_nonneg m) as Hm0.
    assert (Hw : window nicks start i = window nicks start (i - 1) ++ [m]).
    { replace i with (i - 1 + 1) at 1 by lia. apply window_snoc; [lia..|done]. }
    assert (Hone : window nicks (i - 1) i = [m]).
    { replace i with (i - 1 + 1) at 2 by lia.
      rewrite (window_snoc nicks (i - 1) (i - 1) m) by (lia || done).
      rewrite window_nil. reflexivity. }
    pose proof (joinedZ_lower (window nicks start (i - 1))) as Hlow.
    assert (Hup : joinedZ (window nicks start (i - 1)) ≤ MAX_REPLY_LEN).
    { destruct Hprev as [->|Hp]; [unfold joinedZ, MAX_REPLY_LEN; cbn; lia|lia]. }
    unfold MAX_REPLY_LEN in *.
    rewrite tooLong_exact; [|lia|rewrite Hw, joinedZ_snoc; unfold int_max; lia].
    unfold MAX_REPLY_LEN.
    destruct (Z.ltb_spec 510 (baseLen + joinedZ (window nicks start i)))
      as [Hlong|Hshort].
    + eexists. split; [reflexivity|]. cbn [fst snd]. split; [|split].
      * unfold cursor_ok. lia.
      * apply Forall_app. split; [assumption|].
        apply Forall_singleton, within_budget_of_fit;
          [unfold MAX_REPLY_LEN; lia | exact Hprev].
      * right. rewrite Hone. unfold joinedZ. cbn [length total_len foldr]. lia.
    + eexists. split; [reflexivity|]. cbn [fst snd]. split; [|split].
      * unfold cursor_ok. lia.
      * assumption.
      * right. assumption.
  - eexists. split; [reflexivity|]. cbn [fst snd]. split; [|split].
    + unfold cursor_ok. lia.
    + assumption.
    + left. unfold window. replace (Z.to_nat (i - start)) with 0%nat by lia.
      reflexivity.
Qed.

Lemma groups_loop_budget :
  ∃ st, groups_loop baseLen nicks = Some st
        ∧ Forall (within_budget baseLen) st.2.
Proof.
  unfold groups_loop.
  assert (Hinit : loop_budget baseLen nicks 0 (0, [])).
  { unfold loop_budget, cursor_ok. cbn [fst snd].
    split; [lia|]. split; [constructor|]. left. reflexivity. }
  destruct (range_loop_invariant (groups_iter baseLen nicks)
              (loop_budget baseLen nicks) (Z.of_nat (length nicks))
              groups_iter_budget
              (length nicks) 0 (0, []) ltac:(lia) ltac:(lia) Hinit)
    as (st & Hl & _ & Hall & _).
  exists st. split; assumption.
Qed.

End Budget.

(** What the tested windows do guarantee: when every member fits on a
    line of its own for this recipient, every group line the scanning
    loop writes has at most 510 bytes. *)
Lemma loop_lines_within_ceiling `{Numerics} (channel : Channel)
  (client : Client) (write : list string) :
  Forall (λ m, NamesReply_baseLen channel client + len m ≤ MAX_REPLY_LEN)
         (Nicks channel) →
  ∃ start groups,
    names_loop channel client write
    = Some (start, write ++ (group_line channel client <$> groups))
    ∧ Forall (λ line, len line ≤ MAX_REPLY_LEN)
             (group_line channel client <$> groups).
Proof.
  intros Hfit.
  destruct (groups_loop_budget (NamesReply_baseLen channel client)
              (Nicks channel) (NamesReply_baseLen_nonneg channel client) Hfit)
    as ([start groups] & Hl & Hall).
  exists start, groups. split.
  - rewrite names_loop_groups_loop, Hl. reflexivity.
  - apply Forall_fmap. cbn [snd] in Hall.
    eapply Forall_impl; [exact Hall|].
    intros g Hg. cbn. rewrite len_group_line. exact Hg.
Qed.

(** Three members of 200 bytes for a recipient named in 100 bytes: each
    fits alone, and the one line the loop writes is within the ceiling. *)
Lemma loop_lines_within_ceiling_example :
  Forall (λ m, @NamesReply_baseLen rfc1459 Scenario.long_room Scenario.longbob
               + len m ≤ MAX_REPLY_LEN)
         (Nicks Scenario.long_room)
  ∧ ∃ start groups,
      @names_loop rfc1459 Scenario.long_room Scenario.longbob []
      = Some (start, [] ++ (@group_line rfc1459 Scenario.long_room
                              Scenario.longbob <$> groups))
      ∧ Forall (λ line, len line ≤ MAX_REPLY_LEN)
               (@group_line rfc1459 Scenario.long_room Scenario.longbob
                  <$> groups).
Proof.
  assert (Hfit : Forall (λ m, @NamesReply_baseLen rfc1459 Scenario.long_room
                                Scenario.longbob + len m ≤ MAX_REPLY_LEN)
                        (Nicks Scenario.long_room)).
  { repeat (apply Forall_cons; split; [vm_compute; discriminate|]).
    apply Forall_nil_2. }
  split; [exact Hfit|].
  exact (@loop_lines_within_ceiling rfc1459 Scenario.long_room
           Scenario.longbob [] Hfit).
Defined.

(** ** A member that fills the line exactly *)

Lemma range_loop_app {St} (body : Z → St → option St) (l1 l2 : list Z)
  (st : St) :
  range_loop body (l1 ++ l2) st
  = range_loop body l1 st ≫= range_loop body l2.
Proof.
  revert st. induction l1 as [|i l1 IH]; intros st; cbn [app range_loop].
  - reflexivity.
  - destruct (body i st) as [st'|]; cbn [mbind option_bind]; [apply IH|done].
Qed.

Lemma state_before_coverage (baseLen : Z) (nicks : list string) (i : Z)
  (st : Z * list (list string)) :
  0 ≤ i ≤ Z.of_nat (length nicks) →
  state_before baseLen nicks i = Some st → loop_coverage nicks i st.
Proof.
  intros Hi Hst. unfold state_before in Hst.
  assert (Hinit : loop_coverage nicks 0 (0, [])).
  { unfold loop_coverage, cursor_ok. cbn [fst snd length concat].
    rewrite window_nil. split; [lia | split; [reflexivity | lia]]. }
  destruct (range_loop_invariant (groups_iter baseLen nicks)
              (loop_coverage nicks) (Z.of_nat (length nicks))
              (groups_iter_coverage baseLen nicks)
              (Z.to_nat i) 0 (0, []) ltac:(lia) ltac:(lia) Hinit)
    as (st' & Hl & HP).
  rewrite Z2Nat.id in Hl, HP by lia. rewrite Hl in Hst.
  injection Hst as <-. exact HP.
Qed.

Lemma groups_iter_extends (baseLen : Z) (nicks : list string) (j0 start0 : Z)
  (groups0 : list (list string)) (i : Z) (st : Z * list (list string)) :
  0 ≤ i < Z.of_nat (length nicks) →
  loop_extends nicks j0 start0 groups0 i st →
  ∃ st', groups_iter baseLen nicks i st = Some st'
         ∧ loop_extends nicks j0 start0 groups0 (i + 1) st'.
Proof.
  destruct st as [start groups]. unfold loop_extends. cbn [fst snd].
  intros Hi (Hj & Hc & Hst).
  rewrite groups_iter_cases by assumption.
  destruct Hc as [H0 Hc].
  destruct ((1 <=? i) && tooLong baseLen (window nicks start i)) eqn:E.
  - apply andb_true_iff in E as [E1%Z.leb_le _].
    eexists. split; [reflexivity|]. cbn [fst snd].
    split; [lia|]. split; [unfold cursor_ok; lia|]. right.
    destruct Hst as [[-> ->]|(e & rest & He & ->)].
    + exists (i - 1), []. split; [lia | reflexivity].
    + exists e, (rest ++ [window nicks start (i - 1)]).
      split; [lia|]. rewrite <- app_assoc. reflexivity.
  - eexists. split; [reflexivity|]. cbn [fst snd].
    split; [lia|]. split; [unfold cursor_ok; lia | exact Hst].
Qed.

Lemma window_prefix {A} (s : list A) (a b c : Z) :
  0 ≤ a → a ≤ b → b ≤ c → window s a b `prefix_of` window s a c.
Proof.
  intros Ha Hab Hbc. exists (window s b c). symmetry. by apply window_app.
Qed.

(** The positions the loop tests.  Let [(start, groups)] be the state of
    the loop before iteration [i].  The iteration splits exactly when the prefix length
    plus the joined length of [nicks[start:i]] is strictly above 510.
    When they add up to 510 exactly, the iteration writes nothing and
    keeps [start], and the next group written starts at [start] and
    holds all of [nicks[start:i]], its last member included. *)
Lemma exact_fit_stays_in_group `{Numerics} (channel : Channel)
  (client : Client) (write : list string) (i start : Z)
  (groups : list (list string)) :
  let nicks := Nicks channel in
  let baseLen := NamesReply_baseLen channel client in
  1 ≤ i < Z.of_nat (length nicks) →
  state_before baseLen nicks i = Some (start, groups) →
  names_iter channel client baseLen nicks i (start, write)
  = (if MAX_REPLY_LEN <? int_add baseLen (joinedLen (window nicks start i))
     then Some (i - 1,
                write ++ [group_line channel client
                            (window nicks start (i - 1))])
     else Some (start, write))
  ∧ (baseLen + joinedZ (window nicks start i) = MAX_REPLY_LEN →
     names_iter channel client baseLen nicks i (start, write)
     = Some (start, write)
     ∧ ∃ group rest,
         NamesReply_groups channel client = Some (groups ++ group :: rest)
         ∧ window nicks start i `prefix_of` group).
Proof.
  intros nicks baseLen Hi Hst.
  pose proof (state_before_coverage baseLen nicks i _ ltac:(lia) Hst)
    as (Hc & _). cbn [fst] in Hc.
  assert (Hiter : names_iter channel client baseLen nicks i (start, write)
    = (if MAX_REPLY_LEN <? int_add baseLen (joinedLen (window nicks start i))
       then Some (i - 1, write ++ [group_line channel client
                                     (window nicks start (i - 1))])
       else Some (start, write))).
  { pose proof (names_iter_groups_iter channel client baseLen nicks i start
                  write []) as E.
    cbn [fmap list_fmap] in E. rewrite app_nil_r in E. rewrite E.
    rewrite groups_iter_cases by (assumption || lia).
    rewrite (proj2 (Z.leb_le 1 i)) by lia. cbn [andb]. unfold tooLong.
    destruct (MAX_REPLY_LEN <? _);
      cbn [fmap option_fmap option_map list_fmap fst snd app];
      rewrite ?app_nil_r; reflexivity. }
  split; [exact Hiter|]. intros Hexact.
  pose proof (NamesReply_baseLen_nonneg channel client) as Hb.
  fold baseLen in Hb.
  assert (Hno : tooLong baseLen (window nicks start i) = false).
  { rewrite tooLong_exact by (unfold int_max, MAX_REPLY_LEN in *; lia).
    apply Z.ltb_ge. lia. }
  split.
  { rewrite Hiter. unfold tooLong in Hno. rewrite Hno. reflexivity. }
  (* the rest of the run *)
  destruct Hc as [H0 Hc].
  assert (Hstep : groups_iter baseLen nicks i (start, groups)
                  = Some (start, groups)).
  { rewrite groups_iter_cases by (unfold cursor_ok; lia).
    rewrite Hno, andb_false_r. reflexivity. }
  assert (Hinit : loop_extends nicks (i + 1) start groups (i + 1)
                    (start, groups)).
  { unfold loop_extends, cursor_ok. cbn [fst snd].
    split; [lia|]. split; [lia|]. left. split; reflexivity. }
  destruct (range_loop_invariant (groups_iter baseLen nicks)
              (loop_extends nicks (i + 1) start groups)
              (Z.of_nat (length nicks))
              (groups_iter_extends baseLen nicks (i + 1) start groups)
              (Z.to_nat (Z.of_nat (length nicks) - (i + 1))) (i + 1)
              (start, groups) ltac:(lia) ltac:(lia) Hinit)
    as ([start' groups'] & Hl & _ & [H0' Hc'] & Hfin).
  rewrite Z2Nat.id in Hl, Hc' by lia. cbn [fst snd] in *.
  replace (i + 1 + (Z.of_nat (length nicks) - (i + 1)))
    with (Z.of_nat (length nicks)) in Hc' by lia.
  assert (Hrun : groups_loop baseLen nicks = Some (start', groups')).
  { unfold groups_loop.
    replace (Z.of_nat (length nicks))
      with (i + (Z.of_nat (length nicks) - i)) at 1 by lia.
    rewrite seqZ_app by lia. rewrite range_loop_app.
    unfold state_before in Hst. rewrite Hst. cbn [mbind option_bind].
    rewrite Z.add_0_l, seqZ_cons by lia. cbn [range_loop].
    rewrite Hstep. cbn [mbind option_bind].
    replace (Z.succ i) with (i + 1) by lia.
    replace (Z.pred (Z.of_nat (length nicks) - i))
      with (Z.of_nat (length nicks) - (i + 1)) by lia.
    exact Hl. }
  unfold NamesReply_groups, groups_from. fold baseLen. fold nicks.
  rewrite Hrun. cbn [mbind option_bind].
  destruct Hfin as [[-> ->]|(e & rest & He & ->)].
  - rewrite (proj2 (Z.ltb_lt start _)) by lia.
    unfold slice_from. rewrite slice_in_range by lia.
    cbn [mbind option_bind]. exists (window nicks start (Z.of_nat (length nicks))), [].
    split; [reflexivity|]. apply window_prefix; lia.
  - destruct (start' <? Z.of_nat (length nicks) - 1).
    + unfold slice_from. rewrite slice_in_range by lia.
      cbn [mbind option_bind]. eexists _, _. rewrite <- app_assoc.
      split; [reflexivity|]. apply window_prefix; lia.
    + eexists _, _. split; [reflexivity|]. apply window_prefix; lia.
Qed.

(** For the recipient [bob] the first two members of [exact_room] fill
    the line to 510 bytes exactly at [i = 2]; they stay together, and
    the group written holds them. *)
Lemma exact_fit_stays_in_group_example :
  (1 ≤ 2 < Z.of_nat (length (Nicks Scenario.exact_room)))
  ∧ state_before (@NamesReply_baseLen rfc1459 Scenario.exact_room Scenario.bob)
      (Nicks Scenario.exact_room) 2 = Some (0, [])
  ∧ @NamesReply_baseLen rfc1459 Scenario.exact_room Scenario.bob
    + joinedZ (window (Nicks Scenario.exact_room) 0 2) = MAX_REPLY_LEN
  ∧ @names_iter rfc1459 Scenario.exact_room Scenario.bob
      (@NamesReply_baseLen rfc1459 Scenario.exact_room Scenario.bob)
      (Nicks Scenario.exact_room) 2 (0, []) = Some (0, [])
  ∧ ∃ group rest,
      @NamesReply_groups rfc1459 Scenario.exact_room Scenario.bob
      = Some ([] ++ group :: rest)
      ∧ window (Nicks Scenario.exact_room) 0 2 `prefix_of` group.
Proof.
  assert (Hi : 1 ≤ 2 < Z.of_nat (length (Nicks Scenario.exact_room)))
    by (cbn; lia).
  assert (Hst : state_before
                  (@NamesReply_baseLen rfc1459 Scenario.exact_room Scenario.bob)
                  (Nicks Scenario.exact_room) 2 = Some (0, []))
    by (vm_compute; reflexivity).
  assert (Hex : @NamesReply_baseLen rfc1459 Scenario.exact_room Scenario.bob
                + joinedZ (window (Nicks Scenario.exact_room) 0 2)
                = MAX_REPLY_LEN)
    by (vm_compute; reflexivity).
  split; [exact Hi|]. split; [exact Hst|]. split; [exact Hex|].
  exact (proj2 (@exact_fit_stays_in_group rfc1459 Scenario.exact_room
                  Scenario.bob [] 2 0 [] Hi Hst) Hex).
Defined.

(** * Further properties of the encoder *)

(** ** The length test and the line it stands for *)

Lemma len_three_digits (code : Z) : len (three_digits code) = 3.
Proof. reflexivity. Qed.

Lemma len_fmt_03d (code : Z) : 0 ≤ code ≤ 999 → len (fmt_03d code) = 3.
Proof. intros Hc. rewrite fmt_03d_three_digits by assumption. reflexivity. Qed.

(** X1.  For a group that is not empty, [joinedLen] is the byte length of
    [strings.Join(names, " ")], as long as that length is an [int]; for
    the empty group it is [-1] while the joined string has no byte. *)
Theorem X1_joinedLen_is_length_of_Join (names : list string) :
  names ≠ [] → len (Join names " ") ≤ int_max →
  joinedLen names = len (Join names " ")
  ∧ joinedLen [] = -1 ∧ len (Join [] " ") = 0.
Proof.
  intros Hne Hmax. rewrite len_Join in * by assumption.
  split; [apply joinedLen_exact; assumption|]. split; reflexivity.
Qed.

Lemma X1_joinedLen_witness :
  ["alice"; "bob"] ≠ [] ∧ len (Join ["alice"; "bob"] " ") ≤ int_max
  ∧ joinedLen ["alice"; "bob"] = len (Join ["alice"; "bob"] " ").
Proof.
  assert (H1 : ["alice"; "bob"] ≠ ([] : list string)) by discriminate.
  assert (H2 : len (Join ["alice"; "bob"] " ") ≤ int_max)
    by (vm_compute; discriminate).
  split; [exact H1|]. split; [exact H2|].
  exact (proj1 (X1_joinedLen_is_length_of_Join ["alice"; "bob"] H1 H2)).
Defined.

(** X2.  For a group that is not empty, the test [tooLong] of
    [NamesReply.Format] answers for the rendered line: it is true exactly
    when the line of the group, rendered for the recipient, has more than
    510 bytes (as long as that length is an [int]). *)
Theorem X2_tooLong_iff_line_over_ceiling `{Numerics} (channel : Channel)
  (client : Client) (names : list string) :
  names ≠ [] → len (group_line channel client names) ≤ int_max →
  tooLong (NamesReply_baseLen channel client) names = true
  ↔ MAX_REPLY_LEN < len (group_line channel client names).
Proof.
  intros Hne Hmax. rewrite len_group_line, len_Join in * by assumption.
  rewrite tooLong_exact by (apply NamesReply_baseLen_nonneg || assumption).
  apply Z.ltb_lt.
Qed.

Lemma X2_tooLong_witness :
  Nicks Scenario.pair_room ≠ []
  ∧ len (@group_line rfc1459 Scenario.pair_room Scenario.bob
           (Nicks Scenario.pair_room)) ≤ int_max
  ∧ (tooLong (@NamesReply_baseLen rfc1459 Scenario.pair_room Scenario.bob)
       (Nicks Scenario.pair_room) = true
     ↔ MAX_REPLY_LEN < len (@group_line rfc1459 Scenario.pair_room
                             Scenario.bob (Nicks Scenario.pair_room))).
Proof.
  assert (H1 : Nicks Scenario.pair_room ≠ []) by discriminate.
  assert (H2 : len (@group_line rfc1459 Scenario.pair_room Scenario.bob
                      (Nicks Scenario.pair_room)) ≤ int_max)
    by (vm_compute; discriminate).
  split; [exact H1|]. split; [exact H2|].
  exact (@X2_tooLong_iff_line_over_ceiling rfc1459 Scenario.pair_room
           Scenario.bob (Nicks Scenario.pair_room) H1 H2).
Defined.

(** X3.  With a three-digit code, the prefix length of a names line is
    the bytes of the server identity, of the recipient's display name
    and of the room name, and eleven bytes of punctuation and code: it
    depends on the recipient through the length of the display name
    only. *)
Theorem X3_baseLen_formula `{Numerics} (channel : Channel) (client : Client) :
  0 ≤ RPL_NAMREPLY ≤ 999 →
  NamesReply_baseLen channel client
  = len (Id (server channel)) + len (Nick client) + len (name channel) + 11.
Proof.
  intros Hc. unfold NamesReply_baseLen, NumericReply_FormatString.
  cbn [RplNamReply NewNumericReply nr_base nr_code message source IdOf
       dyn_methods dyn_value Join].
  unfold IdOf. cbn [dyn_type dyn_methods dyn_value].
  rewrite !len_app, len_fmt_03d by assumption.
  change (len ":") with 1. change (len " ") with 1.
  change (len "= ") with 2. change (len " :") with 2. change (len "") with 0.
  lia.
Qed.

Lemma X3_baseLen_witness :
  0 ≤ @RPL_NAMREPLY rfc1459 ≤ 999
  ∧ @NamesReply_baseLen rfc1459 Scenario.alice_room Scenario.bob
    = len "irc.example" + len "bob" + len "#room" + 11.
Proof.
  assert (Hc : 0 ≤ @RPL_NAMREPLY rfc1459 ≤ 999) by (cbn; lia).
  split; [exact Hc|].
  exact (@X3_baseLen_formula rfc1459 Scenario.alice_room Scenario.bob Hc).
Defined.

(** X4.  With a three-digit code, the terminator line has the bytes of
    the room identity and of the recipient's display name and 25 more;
    it is within the ceiling exactly when the two together have at most
    485 bytes. *)
Theorem X4_terminator_length `{Numerics} (channel : Channel) (client : Client) :
  0 ≤ RPL_ENDOFNAMES ≤ 999 →
  len (terminator_line channel client)
  = len (Id channel) + len (Nick client) + 25
  ∧ (len (terminator_line channel client) ≤ MAX_REPLY_LEN
     ↔ len (Id channel) + len (Nick client) ≤ 485).
Proof.
  intros Hc.
  assert (E : len (terminator_line channel client)
              = len (Id channel) + len (Nick client) + 25).
  { unfold terminator_line, NumericReply_FormatString.
    cbn [RplEndOfNames NewNumericReply nr_base nr_code message source IdOf
         dyn_methods dyn_value].
    unfold IdOf. cbn [dyn_type dyn_methods dyn_value].
    rewrite !len_app, len_fmt_03d by assumption.
    change (len ":") with 1. change (len " ") with 1.
    change (len ":End of NAMES list") with 18. lia. }
  split; [exact E|]. rewrite E. unfold MAX_REPLY_LEN. lia.
Qed.

Lemma X4_terminator_witness :
  0 ≤ @RPL_ENDOFNAMES rfc1459 ≤ 999
  ∧ len (@terminator_line rfc1459 Scenario.alice_room Scenario.hugebob)
    = len "#room" + len (Repeat "b"%char 600) + 25.
Proof.
  assert (Hc : 0 ≤ @RPL_ENDOFNAMES rfc1459 ≤ 999) by (cbn; lia).
  split; [exact Hc|].
  exact (proj1 (@X4_terminator_length rfc1459 Scenario.alice_room
                  Scenario.hugebob Hc)).
Defined.

(** ** Reading the code back *)

Lemma digit_value_digit (d : Z) : 0 ≤ d ≤ 9 → digit_value (digit d) = d.
Proof.
  intros Hd. unfold digit_value, digit.
  rewrite nat_ascii_embedding by lia. lia.
Qed.

Lemma digits_value_fmtDigits (fuel : nat) :
  ∀ (u : Z) (acc : string), 0 ≤ u < 10 ^ Z.of_nat fuel →
    digits_value (fmtDigits fuel u acc)
    = u * 10 ^ Z.of_nat (String.length acc) + digits_value acc.
Proof.
  induction fuel as [|fuel IH]; intros u acc Hu; cbn [fmtDigits].
  - change (10 ^ Z.of_nat 0) with 1 in Hu. assert (u = 0) as -> by lia. lia.
  - destruct (Z.ltb_spec u 10) as [Hlt|Hge].
    + cbn [digits_value]. rewrite digit_value_digit by lia. reflexivity.
    + rewrite Nat2Z.inj_succ, Z.pow_succ_r in Hu by lia.
      pose proof (Z.div_mod u 10 ltac:(lia)) as Hdm.
      pose proof (Z.mod_pos_bound u 10 ltac:(lia)) as Hm.
      rewrite IH by (split; [apply Z.div_pos; lia
                            | apply Z.div_lt_upper_bound; lia]).
      cbn [digits_value String.length].
      rewrite digit_value_digit by lia.
      rewrite Nat2Z.inj_succ, Z.pow_succ_r by lia.
      set (P := 10 ^ Z.of_nat (String.length acc)).
      rewrite Hdm at 3. ring.
Qed.

Lemma digits_value_zeros (k : nat) (s : string) :
  digits_value (Repeat "0"%char k +:+ s) = digits_value s.
Proof.
  induction k as [|k IH]; [reflexivity|].
  change (Repeat "0"%char (S k) +:+ s)
    with (String "0"%char (Repeat "0"%char k +:+ s)).
  cbn [digits_value]. rewrite IH. change (digit_value "0"%char) with 0. lia.
Qed.

Lemma fmtDigits_length (fuel : nat) :
  ∀ (u : Z) (acc : string),
    (String.length acc + 1 ≤ String.length (fmtDigits (S fuel) u acc))%nat.
Proof.
  induction fuel as [|fuel IH]; intros u acc.
  - cbn [fmtDigits]. destruct (u <? 10); cbn [String.length]; lia.
  - change (fmtDigits (S (S fuel)) u acc)
      with (if u <? 10 then String (digit u) acc
            else fmtDigits (S fuel) (u / 10) (String (digit (u mod 10)) acc)).
    destruct (u <? 10); [cbn [String.length]; lia|].
    specialize (IH (u / 10) (String (digit (u mod 10)) acc)).
    cbn [String.length] in IH. lia.
Qed.

Lemma decimal_long (u : Z) : 999 < u → 3 < len (decimal u).
Proof.
  intros Hu. unfold decimal.
  assert (H1 : 100 ≤ u / 10) by (apply Z.div_le_lower_bound; lia).
  assert (H2 : 10 ≤ u / 10 / 10) by (apply Z.div_le_lower_bound; lia).
  change (fmtDigits 20 u "")
    with (if u <? 10 then String (digit u) ""
          else fmtDigits 19 (u / 10) (String (digit (u mod 10)) "")).
  rewrite (proj2 (Z.ltb_ge u 10)) by lia.
  change (fmtDigits 19 (u / 10) (String (digit (u mod 10)) ""))
    with (if u / 10 <? 10 then String (digit (u / 10)) (String (digit (u mod 10)) "")
          else fmtDigits 18 (u / 10 / 10)
                 (String (digit (u / 10 mod 10)) (String (digit (u mod 10)) ""))).
  rewrite (proj2 (Z.ltb_ge (u / 10) 10)) by lia.
  change (fmtDigits 18 (u / 10 / 10)
            (String (digit (u / 10 mod 10)) (String (digit (u mod 10)) "")))
    with (if u / 10 / 10 <? 10
          then String (digit (u / 10 / 10))
                 (String (digit (u / 10 mod 10)) (String (digit (u mod 10)) ""))
          else fmtDigits 17 (u / 10 / 10 / 10)
                 (String (digit (u / 10 / 10 mod 10))
                    (String (digit (u / 10 mod 10))
                       (String (digit (u mod 10)) "")))).
  rewrite (proj2 (Z.ltb_ge (u / 10 / 10) 10)) by lia.
  pose proof (fmtDigits_length 16 (u / 10 / 10 / 10)
                (String (digit (u / 10 / 10 mod 10))
                   (String (digit (u / 10 mod 10))
                      (String (digit (u mod 10)) "")))) as Hl.
  cbn [String.length] in Hl. unfold len. lia.
Qed.

(** X5.  The code of a numeric reply, when it is not negative, can be
    read back from what [%03d] renders: the digits stand for the code,
    and there are three of them at least.  A code above 999 is rendered
    in full, on more than three digits. *)
Theorem X5_code_read_back (reply : NumericReply) :
  0 ≤ nr_code reply ≤ int_max →
  digits_value (fmt_03d (nr_code reply)) = nr_code reply
  ∧ 3 ≤ len (fmt_03d (nr_code reply))
  ∧ (999 < nr_code reply → 3 < len (fmt_03d (nr_code reply))).
Proof.
  intros [H0 Hmax]. unfold fmt_03d.
  rewrite (proj2 (Z.ltb_ge _ 0)) by lia. unfold zeroPad.
  split; [|split].
  - rewrite digits_value_zeros. unfold decimal.
    rewrite digits_value_fmtDigits.
    + cbn [String.length digits_value]. lia.
    + unfold int_max in Hmax. split; [lia|].
      eapply Z.le_lt_trans; [exact Hmax|]. reflexivity.
  - rewrite len_app, len_Repeat. unfold len. lia.
  - intros Hbig. rewrite len_app, len_Repeat.
    pose proof (decimal_long _ Hbig). lia.
Qed.

Lemma X5_code_read_back_witness :
  0 ≤ nr_code (NewNumericReply Scenario.irc_server 1001 "") ≤ int_max
  ∧ digits_value (fmt_03d 1001) = 1001
  ∧ 3 < len (fmt_03d 1001).
Proof.
  assert (Hc : 0 ≤ nr_code (NewNumericReply Scenario.irc_server 1001 "")
               ≤ int_max) by (split; vm_compute; discriminate).
  split; [exact Hc|].
  pose proof (X5_code_read_back
                (NewNumericReply Scenario.irc_server 1001 "") Hc)
    as (Hv & _ & Hl).
  split; [exact Hv|]. apply Hl. reflexivity.
Defined.

(** ** Small rooms, large rooms *)

(** X6.  For a room with one member or none, whatever the member and the
    recipient, [NamesReply.Format] writes the terminator and nothing
    else: the loop does not run past index 0 and the final flush is
    skipped. *)
Theorem X6_at_most_one_member_only_terminator `{Numerics} (channel : Channel)
  (client : Client) (write : list string) :
  (length (Nicks channel) ≤ 1)%nat →
  NamesReply_groups channel client = Some []
  ∧ NamesReply_Format_body channel client write
    = Some (write ++ [terminator_line channel client]).
Proof.
  intros Hn.
  assert (E : NamesReply_groups channel client = Some []).
  { unfold NamesReply_groups, groups_from, groups_loop.
    destruct (Nicks channel) as [|m [|m' rest]]; cbn [length] in *;
      [reflexivity | reflexivity | lia]. }
  split; [exact E|].
  rewrite NamesReply_Format_body_groups, E. reflexivity.
Qed.

Lemma X6_at_most_one_member_witness :
  (length (Nicks Scenario.alice_room) ≤ 1)%nat
  ∧ @NamesReply_Format_body rfc1459 Scenario.alice_room Scenario.longbob []
    = Some ([] ++ [@terminator_line rfc1459 Scenario.alice_room
                     Scenario.longbob]).
Proof.
  assert (Hn : (length (Nicks Scenario.alice_room) ≤ 1)%nat) by (cbn; lia).
  split; [exact Hn|].
  exact (proj2 (@X6_at_most_one_member_only_terminator rfc1459
                  Scenario.alice_room Scenario.longbob [] Hn)).
Defined.

(** X7.  For a room with two members or more, whatever their lengths,
    the lines written are the lines of groups that, put end to end, are
    the member sequence: every member is on exactly one line, in order;
    the terminator follows. *)
Theorem X7_two_or_more_members_covered `{Numerics} (channel : Channel)
  (client : Client) (write : list string) :
  (2 ≤ length (Nicks channel))%nat →
  ∃ groups,
    concat groups = Nicks channel
    ∧ NamesReply_Format_body channel client write
      = Some (write ++ (group_line channel client <$> groups)
                    ++ [terminator_line channel client]).
Proof.
  intros Hn.
  destruct (NamesReply_groups_concat channel client) as (gs & Hg & Hcat & _).
  exists gs. split.
  - rewrite Hcat, (proj2 (Z.leb_le 2 _)) by lia. reflexivity.
  - rewrite NamesReply_Format_body_groups, Hg. reflexivity.
Qed.

Lemma X7_two_or_more_members_witness :
  (2 ≤ length (Nicks Scenario.oversized_room))%nat
  ∧ ∃ groups,
      concat groups = Nicks Scenario.oversized_room
      ∧ @NamesReply_Format_body rfc1459 Scenario.oversized_room Scenario.bob []
        = Some ([] ++ (@group_line rfc1459 Scenario.oversized_room
                         Scenario.bob <$> groups)
                   ++ [@terminator_line rfc1459 Scenario.oversized_room
                         Scenario.bob]).
Proof.
  assert (Hn : (2 ≤ length (Nicks Scenario.oversized_room))%nat)
    by (cbn; lia).
  split; [exact Hn|].
  exact (@X7_two_or_more_members_covered rfc1459 Scenario.oversized_room
           Scenario.bob [] Hn).
Defined.

(** X8.  For a room with two members or more the final flush is always
    written, and its group is an end of the member sequence with two
    members at least: the last two members are never on different
    lines. *)
Theorem X8_final_group_holds_last_two `{Numerics} (channel : Channel)
  (client : Client) :
  (2 ≤ length (Nicks channel))%nat →
  ∃ groups final,
    NamesReply_groups channel client = Some (groups ++ [final])
    ∧ (2 ≤ length final)%nat
    ∧ final `suffix_of` Nicks channel.
Proof.
  intros Hn.
  destruct (groups_loop_coverage (NamesReply_baseLen channel client)
              (Nicks channel)) as ([start groups] & Hl & (H0 & Hc) & _).
  cbn [fst snd] in *.
  exists groups, (window (Nicks channel) start
                    (Z.of_nat (length (Nicks channel)))).
  split; [|split].
  - unfold NamesReply_groups, groups_from. rewrite Hl.
    cbn [mbind option_bind].
    rewrite (proj2 (Z.ltb_lt start _)) by lia.
    unfold slice_from. rewrite slice_in_range by lia. reflexivity.
  - pose proof (length_window (Nicks channel) start
                  (Z.of_nat (length (Nicks channel)))
                  ltac:(lia) ltac:(lia) ltac:(lia)). lia.
  - exists (window (Nicks channel) 0 start).
    rewrite window_app by lia. symmetry. apply window_all.
Qed.

Lemma X8_final_group_witness :
  (2 ≤ length (Nicks Scenario.long_room))%nat
  ∧ ∃ groups final,
      @NamesReply_groups rfc1459 Scenario.long_room Scenario.longbob
      = Some (groups ++ [final])
      ∧ (2 ≤ length final)%nat
      ∧ final `suffix_of` Nicks Scenario.long_room.
Proof.
  assert (Hn : (2 ≤ length (Nicks Scenario.long_room))%nat) by (cbn; lia).
  split; [exact Hn|].
  exact (@X8_final_group_holds_last_two rfc1459 Scenario.long_room
           Scenario.longbob Hn).
Defined.

(** ** Groups without members *)

Lemma window_nonempty {A} (s : list A) (a b : Z) :
  0 ≤ a → a < b → b ≤ Z.of_nat (length s) → window s a b ≠ [].
Proof.
  intros Ha Hab Hb Hnil.
  pose proof (length_window s a b ltac:(lia) ltac:(lia) Hb) as Hlen.
  rewrite Hnil in Hlen. cbn [length] in Hlen. lia.
Qed.

Lemma drop_1_snoc_nonempty (groups : list (list string)) (w : list string) :
  w ≠ [] → Forall (λ g, g ≠ []) (drop 1 groups) →
  Forall (λ g, g ≠ []) (drop 1 (groups ++ [w])).
Proof.
  intros Hw Hall. destruct groups as [|g rest]; cbn [drop app] in *.
  - constructor.
  - apply Forall_app. split; [assumption|]. by apply Forall_singleton.
Qed.

Lemma head_snoc_nonempty (groups : list (list string)) (w : list string)
  (P : Prop) :
  w ≠ [] → (head groups = Some [] ↔ P) → (groups = [] → ¬ P) →
  head (groups ++ [w]) = Some [] ↔ P.
Proof.
  intros Hw Hiff Hnil. destruct groups as [|g rest]; cbn [head app] in *.
  - split; [intros [= E]; congruence|]. intros HP. exfalso. by apply Hnil.
  - exact Hiff.
Qed.

Lemma groups_iter_nonempty (baseLen : Z) (nicks : list string) (i : Z)
  (st : Z * list (list string)) :
  0 ≤ i < Z.of_nat (length nicks) →
  loop_nonempty baseLen nicks i st →
  ∃ st', groups_iter baseLen nicks i st = Some st'
         ∧ loop_nonempty baseLen nicks (i + 1) st'.
Proof.
  destruct st as [start groups]. unfold loop_nonempty. cbn [fst snd].
  intros Hi (Hc & Hearly & Hall & Hhead).
  rewrite groups_iter_cases by assumption.
  destruct Hc as [H0 Hc].
  destruct (Z.leb_spec 1 i) as [H1|H1]; cbn [andb];
    [destruct (tooLong baseLen (window nicks start i)) eqn:Etest|].
  - (* a split at [i] *)
    eexists. split; [reflexivity|]. cbn [fst snd].
    split; [unfold cursor_ok; lia|]. split; [lia|].
    destruct (Z.eq_dec i 1) as [->|Hne].
    + assert (start = 0) as -> by lia.
      rewrite Hearly by lia. replace (1 - 1) with 0 by lia.
      rewrite window_nil. cbn [app drop head].
      split; [constructor|]. intros _. split; [intros _; exact Etest|done].
    + assert (Hw : window nicks start (i - 1) ≠ [])
        by (apply window_nonempty; lia).
      split; [by apply drop_1_snoc_nonempty|]. intros _.
      apply head_snoc_nonempty; [assumption | apply Hhead; lia |].
      intros -> HT. apply Hhead in HT; [discriminate | lia].
  - (* no split at [i] *)
    eexists. split; [reflexivity|]. cbn [fst snd].
    split; [unfold cursor_ok; lia|]. split; [intros; apply Hearly; lia|].
    split; [assumption|]. intros _.
    destruct (Z.eq_dec i 1) as [->|Hne]; [|apply Hhead; lia].
    assert (start = 0) as -> by lia. rewrite Hearly by lia.
    rewrite Etest. cbn [head]. split; discriminate.
  - eexists. split; [reflexivity|]. cbn [fst snd].
    split; [unfold cursor_ok; lia|]. split; [intros; apply Hearly; lia|].
    split; [assumption|lia].
Qed.

(** X10.  A group line without members is written in one case only: as
    the first line, when the room has two members or more and the first
    member alone is too long for a line.  Every other group has a
    member. *)
Theorem X10_group_without_members_only_first `{Numerics} (channel : Channel)
  (client : Client) :
  ∃ groups,
    NamesReply_groups channel client = Some groups
    ∧ Forall (λ g, g ≠ []) (drop 1 groups)
    ∧ (head groups = Some []
       ↔ 2 ≤ Z.of_nat (length (Nicks channel))
         ∧ tooLong (NamesReply_baseLen channel client)
             (take 1 (Nicks channel)) = true).
Proof.
  set (nicks := Nicks channel). set (baseLen := NamesReply_baseLen channel client).
  assert (Hinit : loop_nonempty baseLen nicks 0 (0, [])).
  { unfold loop_nonempty, cursor_ok. cbn [fst snd drop].
    split; [lia|]. split; [done|]. split; [constructor|lia]. }
  destruct (range_loop_invariant (groups_iter baseLen nicks)
              (loop_nonempty baseLen nicks) (Z.of_nat (length nicks))
              (groups_iter_nonempty baseLen nicks)
              (length nicks) 0 (0, []) ltac:(lia) ltac:(lia) Hinit)
    as ([start groups] & Hl & (H0 & Hc) & Hearly & Hall & Hhead).
  cbn [fst snd] in *. rewrite Z.add_0_l in *.
  unfold NamesReply_groups, groups_from, groups_loop.
  fold nicks. fold baseLen. rewrite Hl. cbn [mbind option_bind].
  change (take 1 nicks) with (window nicks 0 1).
  destruct (Z.ltb_spec start (Z.of_nat (length nicks) - 1)) as [Hlt|Hge].
  - unfold slice_from. rewrite slice_in_range by lia.
    cbn [mbind option_bind]. eexists. split; [reflexivity|].
    assert (Hw : window nicks start (Z.of_nat (length nicks)) ≠ [])
      by (apply window_nonempty; lia).
    split; [by apply drop_1_snoc_nonempty|].
    assert (Hiff : head (groups ++ [window nicks start (Z.of_nat (length nicks))])
                   = Some [] ↔ tooLong baseLen (window nicks 0 1) = true).
    { apply head_snoc_nonempty; [assumption | apply Hhead; lia |].
      intros -> HT. apply Hhead in HT; [discriminate | lia]. }
    rewrite Hiff. split; [intros HT; split; [lia | exact HT] | tauto].
  - exists groups. split; [reflexivity|]. split; [assumption|].
    assert (start = 0) as -> by lia.
    rewrite Hearly by lia. cbn [head]. split; [discriminate | lia].
Qed.

(** ** Packed groups *)

Lemma head_window {A} (s : list A) (a b : Z) (x : A) :
  head (window s a b) = Some x → s !! Z.to_nat a = Some x.
Proof.
  unfold window. rewrite head_lookup. intros Hx.
  apply lookup_take_Some in Hx as [Hx _].
  rewrite lookup_drop, Nat.add_0_r in Hx. exact Hx.
Qed.

Lemma packed_snoc (baseLen : Z) (groups : list (list string))
  (w : list string) :
  packed baseLen groups →
  (∀ g m, last groups = Some g → head w = Some m →
          tooLong baseLen (g ++ [m]) = true) →
  packed baseLen (groups ++ [w]).
Proof.
  intros Hp Hlast k g g' m Hk HSk Hm.
  destruct (decide (S k < length groups)%nat) as [Hin|Hout].
  - rewrite lookup_app_l in Hk, HSk by lia. exact (Hp k g g' m Hk HSk Hm).
  - destruct (decide (S k = length groups)) as [Heq|Hne].
    + rewrite lookup_app_l in Hk by lia.
      rewrite lookup_app_r, Heq, Nat.sub_diag in HSk by lia.
      injection HSk as <-.
      apply (Hlast g m); [|exact Hm].
      rewrite last_lookup, <- Heq. exact Hk.
    + apply lookup_lt_Some in HSk. rewrite length_app in HSk.
      cbn [length] in HSk. lia.
Qed.

Lemma groups_iter_packed (baseLen : Z) (nicks : list string) (i : Z)
  (st : Z * list (list string)) :
  0 ≤ i < Z.of_nat (length nicks) →
  loop_packed baseLen nicks i st →
  ∃ st', groups_iter baseLen nicks i st = Some st'
         ∧ loop_packed baseLen nicks (i + 1) st'.
Proof.
  destruct st as [start groups]. unfold loop_packed. cbn [fst snd].
  intros Hi (Hc & Hp & Hpend).
  rewrite groups_iter_cases by assumption.
  destruct Hc as [H0 Hc].
  destruct ((1 <=? i) && tooLong baseLen (window nicks start i)) eqn:E.
  - apply andb_true_iff in E as [E1%Z.leb_le Etest].
    eexists. split; [reflexivity|]. cbn [fst snd].
    split; [unfold cursor_ok; lia|]. split.
    + apply packed_snoc; [assumption|]. intros g m Hg Hm.
      apply (Hpend g m Hg). exact (head_window _ _ _ _ Hm).
    + intros g m Hg Hm. rewrite last_snoc in Hg. injection Hg as <-.
      rewrite <- (window_snoc nicks start (i - 1) m) by (lia || done).
      replace (i - 1 + 1) with i by lia. exact Etest.
  - eexists. split; [reflexivity|]. cbn [fst snd].
    split; [unfold cursor_ok; lia|]. split; assumption.
Qed.

(** X11.  The groups written are packed: for two groups in a row, the
    first with the first member of the second added is too long by the
    test of the loop; a line is closed only because the next member did
    not fit on it. *)
Theorem X11_groups_are_packed `{Numerics} (channel : Channel)
  (client : Client) :
  ∃ groups,
    NamesReply_groups channel client = Some groups
    ∧ ∀ (k : nat) (g g' : list string) (m : string),
        groups !! k = Some g → groups !! S k = Some g' → head g' = Some m →
        tooLong (NamesReply_baseLen channel client) (g ++ [m]) = true.
Proof.
  set (nicks := Nicks channel). set (baseLen := NamesReply_baseLen channel client).
  assert (Hinit : loop_packed baseLen nicks 0 (0, [])).
  { unfold loop_packed, cursor_ok, packed. cbn [fst snd last].
    split; [lia|]. split; [intros k g g' m Hk; discriminate Hk|].
    intros g m Hg; discriminate Hg. }
  destruct (range_loop_invariant (groups_iter baseLen nicks)
              (loop_packed baseLen nicks) (Z.of_nat (length nicks))
              (groups_iter_packed baseLen nicks)
              (length nicks) 0 (0, []) ltac:(lia) ltac:(lia) Hinit)
    as ([start groups] & Hl & (H0 & Hc) & Hp & Hpend).
  cbn [fst snd] in *.
  unfold NamesReply_groups, groups_from, groups_loop.
  fold nicks. fold baseLen. rewrite Hl. cbn [mbind option_bind].
  destruct (start <? Z.of_nat (length nicks) - 1).
  - unfold slice_from. rewrite slice_in_range by lia.
    cbn [mbind option_bind]. eexists. split; [reflexivity|].
    apply packed_snoc; [assumption|]. intros g m Hg Hm.
    apply (Hpend g m Hg). exact (head_window _ _ _ _ Hm).
  - exists groups. split; [reflexivity | exact Hp].
Qed.

(** ** How far the final line can go over the ceiling *)

(** X12.  When the room has two members or more and every member fits
    on a line of its own, every group line but the last is within the
    ceiling, and the last one, the final flush, is over it by no more
    than the last member and its separator. *)
Theorem X12_final_line_overshoot `{Numerics} (channel : Channel)
  (client : Client) :
  (2 ≤ length (Nicks channel))%nat →
  Forall (λ m, NamesReply_baseLen channel client + len m ≤ MAX_REPLY_LEN)
         (Nicks channel) →
  ∃ groups final lastm,
    NamesReply_groups channel client = Some (groups ++ [final])
    ∧ last (Nicks channel) = Some lastm
    ∧ Forall (λ g, len (group_line channel client g) ≤ MAX_REPLY_LEN) groups
    ∧ len (group_line channel client final) ≤ MAX_REPLY_LEN + 1 + len lastm.
Proof.
  intros Hn Hfit.
  set (nicks := Nicks channel) in *.
  set (baseLen := NamesReply_baseLen channel client) in *.
  pose proof (NamesReply_baseLen_nonneg channel client) as Hb.
  fold baseLen in Hb.
  assert (Hinit : loop_budget baseLen nicks 0 (0, [])).
  { unfold loop_budget, cursor_ok. cbn [fst snd].
    split; [lia|]. split; [constructor|]. left. reflexivity. }
  destruct (range_loop_invariant (groups_iter baseLen nicks)
              (loop_budget baseLen nicks) (Z.of_nat (length nicks))
              (groups_iter_budget baseLen nicks Hb Hfit)
              (length nicks) 0 (0, []) ltac:(lia) ltac:(lia) Hinit)
    as ([start groups] & Hl & (H0 & Hc) & Hall & Hprev).
  cbn [fst snd] in *. rewrite Z.add_0_l in *.
  set (n := Z.of_nat (length nicks)) in *.
  destruct (lookup_lt_is_Some_2 nicks (Z.to_nat (n - 1))) as [lastm Hlast];
    [lia|].
  assert (Hm : baseLen + len lastm ≤ MAX_REPLY_LEN)
    by exact (proj1 (Forall_lookup _ _) Hfit _ _ Hlast).
  exists groups, (window nicks start n), lastm. split; [|split; [|split]].
  - unfold NamesReply_groups, groups_from, groups_loop.
    fold nicks. fold baseLen. fold n. rewrite Hl. cbn [mbind option_bind].
    rewrite (proj2 (Z.ltb_lt start _)) by lia.
    unfold slice_from. fold n. rewrite slice_in_range by lia. reflexivity.
  - rewrite last_lookup. rewrite <- Hlast. f_equal. lia.
  - eapply Forall_impl; [exact Hall|]. intros g Hg. cbn.
    rewrite len_group_line. exact Hg.
  - rewrite len_group_line. fold baseLen.
    assert (Hw : window nicks start n = window nicks start (n - 1) ++ [lastm]).
    { replace n with (n - 1 + 1) at 1 by lia.
      apply window_snoc; [lia..|done]. }
    rewrite len_Join by (rewrite Hw; by destruct (window nicks start (n - 1))).
    rewrite Hw, joinedZ_snoc.
    destruct Hprev as [->|Hp]; [|lia].
    pose proof (len_nonneg lastm).
    unfold joinedZ. cbn [length total_len foldr]. lia.
Qed.

Lemma X12_final_line_overshoot_witness :
  (2 ≤ length (Nicks Scenario.pair_room))%nat
  ∧ Forall (λ m, @NamesReply_baseLen rfc1459 Scenario.pair_room Scenario.bob
                 + len m ≤ MAX_REPLY_LEN) (Nicks Scenario.pair_room)
  ∧ ∃ groups final lastm,
      @NamesReply_groups rfc1459 Scenario.pair_room Scenario.bob
      = Some (groups ++ [final])
      ∧ last (Nicks Scenario.pair_room) = Some lastm
      ∧ Forall (λ g, len (@group_line rfc1459 Scenario.pair_room
                            Scenario.bob g) ≤ MAX_REPLY_LEN) groups
      ∧ len (@group_line rfc1459 Scenario.pair_room Scenario.bob final)
        ≤ MAX_REPLY_LEN + 1 + len lastm.
Proof.
  assert (Hn : (2 ≤ length (Nicks Scenario.pair_room))%nat) by (cbn; lia).
  assert (Hfit : Forall (λ m, @NamesReply_baseLen rfc1459 Scenario.pair_room
                                Scenario.bob + len m ≤ MAX_REPLY_LEN)
                        (Nicks Scenario.pair_room)).
  { repeat (apply Forall_cons; split; [vm_compute; discriminate|]).
    apply Forall_nil_2. }
  split; [exact Hn|]. split; [exact Hfit|].
  exact (@X12_final_line_overshoot rfc1459 Scenario.pair_room Scenario.bob
           Hn Hfit).
Defined.

(** ** One line for the whole room *)

Lemma total_len_app (a b : list string) :
  total_len (a ++ b) = total_len a + total_len b.
Proof.
  induction a as [|x a IH]; cbn [app].
  - unfold total_len at 2. cbn [foldr]. lia.
  - unfold total_len at 1 2. cbn [foldr].
    fold (total_len (a ++ b)). fold (total_len a). lia.
Qed.

Lemma joinedZ_app_le (a b : list string) : joinedZ a ≤ joinedZ (a ++ b).
Proof.
  unfold joinedZ. rewrite total_len_app, length_app.
  pose proof (total_len_nonneg b). lia.
Qed.

Lemma joinedZ_window_le (nicks : list string) (i j : Z) :
  0 ≤ i → i ≤ j → joinedZ (window nicks 0 i) ≤ joinedZ (window nicks 0 j).
Proof.
  intros Hi Hij. rewrite <- (window_app nicks 0 i j) by lia.
  apply joinedZ_app_le.
Qed.

Lemma take_as_window {A} (s : list A) (k : nat) :
  take k s = window s 0 (Z.of_nat k).
Proof. unfold window. rewrite Z.sub_0_r, Nat2Z.id. reflexivity. Qed.

(** X13.  For a room with two members or more (and names short enough
    for the lengths to be [int]s), all the members go out on one line
    exactly when the members but the last fit on one line: the last
    member is never counted. *)
Theorem X13_one_line_iff_all_but_last_fit `{Numerics} (channel : Channel)
  (client : Client) :
  (2 ≤ length (Nicks channel))%nat →
  len (group_line channel client (Nicks channel)) ≤ int_max →
  NamesReply_groups channel client = Some [Nicks channel]
  ↔ len (group_line channel client
           (take (length (Nicks channel) - 1) (Nicks channel)))
    ≤ MAX_REPLY_LEN.
Proof.
  intros Hn Hmax.
  set (nicks := Nicks channel) in *.
  set (baseLen := NamesReply_baseLen channel client) in *.
  set (n := Z.of_nat (length nicks)).
  pose proof (NamesReply_baseLen_nonneg channel client) as Hb.
  fold baseLen in Hb.
  rewrite take_as_window.
  replace (Z.of_nat (length nicks - 1)) with (n - 1) by (unfold n; lia).
  assert (Hne : window nicks 0 (n - 1) ≠ [])
    by (apply window_nonempty; unfold n; lia).
  rewrite len_group_line, len_Join in * by (try assumption; by destruct nicks).
  fold baseLen in Hmax |- *.
  assert (Hall : joinedZ (window nicks 0 (n - 1)) ≤ joinedZ nicks).
  { rewrite <- (window_all nicks) at 2. fold n.
    apply joinedZ_window_le; unfold n; lia. }
  unfold NamesReply_groups, groups_from, groups_loop.
  fold nicks. fold baseLen. fold n.
  split.
  - (* one group: the members but the last fit *)
    intros Hone.
    destruct (Z.le_gt_cases (baseLen + joinedZ (window nicks 0 (n - 1)))
                MAX_REPLY_LEN) as [Hle|Hgt]; [exact Hle|]. exfalso.
    assert (HT : tooLong baseLen (window nicks 0 (n - 1)) = true).
    { rewrite tooLong_exact by lia. apply Z.ltb_lt. lia. }
    destruct (range_loop_invariant (groups_iter baseLen nicks)
                (λ i st, cursor_ok i st.1 ∧ (st.2 = [] → st.1 = 0)
                         ∧ (i = n → st.2 ≠ [])) n) with
      (k := length nicks) (i := 0) (st := (0, @nil (list string)))
      as ([start groups] & Hl & (H0 & Hc) & _ & Hfin).
    + intros i [start groups] Hi ((H0 & Hc) & Hs & _). cbn [fst snd] in *.
      rewrite groups_iter_cases by (unfold cursor_ok; fold n in Hi |- *; lia).
      destruct ((1 <=? i) && tooLong baseLen (window nicks start i)) eqn:E.
      * eexists. split; [reflexivity|]. cbn [fst snd].
        split; [unfold cursor_ok; lia|].
        split; intros Hnil; try intros Habs;
          apply app_eq_nil in Hnil || apply app_eq_nil in Habs;
          [destruct Hnil as [_ [=]] | destruct Habs as [_ [=]]].
      * eexists. split; [reflexivity|]. cbn [fst snd].
        split; [unfold cursor_ok; lia|]. split; [exact Hs|].
        intros Hlast Hnil. rewrite (Hs Hnil) in E.
        replace i with (n - 1) in E by lia.
        rewrite HT, (proj2 (Z.leb_le 1 (n - 1))) in E by (unfold n; lia).
        discriminate E.
    + lia.
    + fold n. lia.
    + cbn [fst snd]. unfold cursor_ok. split; [lia|]. split; [done|].
      unfold n. lia.
    + fold n in Hl. rewrite Z.add_0_l in *. cbn [fst snd] in *.
      rewrite Hl in Hone. cbn [mbind option_bind] in Hone.
      rewrite (proj2 (Z.ltb_lt start _)) in Hone by (unfold n in *; lia).
      unfold slice_from in Hone.
      rewrite slice_in_range in Hone by (unfold n in *; lia).
      cbn [mbind option_bind] in Hone. injection Hone as Hone.
      apply (f_equal length) in Hone. rewrite length_app in Hone.
      cbn [length] in Hone.
      destruct groups; [by apply Hfin | cbn [length] in Hone; lia].
  - (* the members but the last fit: no split *)
    intros Hle.
    destruct (range_loop_invariant (groups_iter baseLen nicks)
                (λ _ st, st = (0, [])) n) with
      (k := length nicks) (i := 0) (st := (0, @nil (list string)))
      as (st & Hl & ->).
    + intros i st Hi ->.
      rewrite groups_iter_cases by (unfold cursor_ok; fold n in Hi |- *; lia).
      destruct (Z.leb_spec 1 i) as [H1|H1]; cbn [andb]; [|by eexists].
      pose proof (joinedZ_window_le nicks i (n - 1) ltac:(lia) ltac:(lia)).
      rewrite tooLong_exact by (unfold int_max, MAX_REPLY_LEN in *; lia).
      rewrite (proj2 (Z.ltb_ge _ _)) by lia. by eexists.
    + lia.
    + fold n. lia.
    + reflexivity.
    + fold n in Hl. rewrite Hl. cbn [mbind option_bind].
      rewrite (proj2 (Z.ltb_lt 0 _)) by (unfold n; lia).
      unfold slice_from. rewrite slice_in_range by lia.
      cbn [mbind option_bind app]. rewrite window_all. reflexivity.
Qed.

(** The first two members of [exact_room] fill the line of [bob] exactly;
    "dave" goes on the same line uncounted. *)
Lemma X13_one_line_witness :
  (2 ≤ length (Nicks Scenario.exact_room))%nat
  ∧ len (@group_line rfc1459 Scenario.exact_room Scenario.bob
           (Nicks Scenario.exact_room)) ≤ int_max
  ∧ len (@group_line rfc1459 Scenario.exact_room Scenario.bob
           (take (length (Nicks Scenario.exact_room) - 1)
                 (Nicks Scenario.exact_room))) ≤ MAX_REPLY_LEN
  ∧ @NamesReply_groups rfc1459 Scenario.exact_room Scenario.bob
    = Some [Nicks Scenario.exact_room].
Proof.
  assert (Hn : (2 ≤ length (Nicks Scenario.exact_room))%nat) by (cbn; lia).
  assert (Hmax : len (@group_line rfc1459 Scenario.exact_room Scenario.bob
                        (Nicks Scenario.exact_room)) ≤ int_max)
    by (vm_compute; discriminate).
  assert (Hfit : len (@group_line rfc1459 Scenario.exact_room Scenario.bob
                        (take (length (Nicks Scenario.exact_room) - 1)
                              (Nicks Scenario.exact_room))) ≤ MAX_REPLY_LEN)
    by (vm_compute; discriminate).
  split; [exact Hn|]. split; [exact Hmax|]. split; [exact Hfit|].
  exact (proj2 (@X13_one_line_iff_all_but_last_fit rfc1459
                  Scenario.exact_room Scenario.bob Hn Hmax) Hfit).
Defined.

(** * The claims revisited *)

(** ** The ceiling and the final flush *)

(** C1 (budget), at the failing input.  Forty-nine members of nine bytes:
    each fits on a line of its own, and the windows the loop tests,
    which never hold the last member, all pass; the final flush writes
    the forty-nine on one line of 519 bytes, nine over the ceiling that
    [tooLong] is there to keep. *)
Theorem C1_final_flush_over_the_ceiling :
  Forall (λ m, @NamesReply_baseLen rfc1459 Crowd.nine_room Scenario.bob
               + len m ≤ MAX_REPLY_LEN) (Nicks Crowd.nine_room)
  ∧ @NamesReply_groups rfc1459 Crowd.nine_room Scenario.bob
    = Some [Nicks Crowd.nine_room]
  ∧ ∃ line,
      @NamesReply_Format_body rfc1459 Crowd.nine_room Scenario.bob []
      = Some [line; @terminator_line rfc1459 Crowd.nine_room Scenario.bob]
      ∧ len line = 519
      ∧ MAX_REPLY_LEN < len line.
Proof.
  split; [|split].
  - apply Forall_forall. intros m Hm.
    apply elem_of_replicate in Hm as [-> _]. vm_compute. discriminate.
  - vm_compute. reflexivity.
  - eexists. split; [vm_compute; reflexivity|].
    split; vm_compute; reflexivity.
Qed.

(** ** The single member that fills the line *)

(** C7 (exact fit), at the failing input.  One member whose name brings
    the line to 510 bytes exactly: the test would keep it, [tooLong] is
    false of it, but the loop never reaches the test and the final flush
    is skipped; the member is in no group, and the terminator is the
    only line written. *)
Theorem C7_single_exact_fit_member_dropped :
  int_add (@NamesReply_baseLen rfc1459 Crowd.exact_single_room Scenario.bob)
          (joinedLen (Nicks Crowd.exact_single_room)) = MAX_REPLY_LEN
  ∧ tooLong (@NamesReply_baseLen rfc1459 Crowd.exact_single_room Scenario.bob)
            (Nicks Crowd.exact_single_room) = false
  ∧ @NamesReply_groups rfc1459 Crowd.exact_single_room Scenario.bob = Some []
  ∧ @NamesReply_Format_body rfc1459 Crowd.exact_single_room Scenario.bob []
    = Some [@terminator_line rfc1459 Crowd.exact_single_room Scenario.bob].
Proof. repeat split; vm_compute; reflexivity. Qed.

(** ** Encoding twice *)

Lemma FormatString_same_Nick (reply : NumericReply) (client1 client2 : Client) :
  Nick client1 = Nick client2 →
  NumericReply_FormatString reply client1
  = NumericReply_FormatString reply client2.
Proof. intros E. unfold NumericReply_FormatString. rewrite E. reflexivity. Qed.

(** The body of [NamesReply.Format] sees the recipient through the
    display name only, and the sink not at all. *)
Lemma NamesReply_Format_body_same_Nick `{Numerics} (channel : Channel)
  (client1 client2 : Client) (write1 write2 : list string) :
  Nick client1 = Nick client2 →
  ∃ lines,
    NamesReply_Format_body channel client1 write1 = Some (write1 ++ lines)
    ∧ NamesReply_Format_body channel client2 write2 = Some (write2 ++ lines).
Proof.
  intros E. rewrite !NamesReply_Format_body_groups.
  unfold NamesReply_groups, NamesReply_baseLen.
  rewrite (FormatString_same_Nick _ client1 client2 E).
  destruct (groups_from_concat
              (len (NumericReply_FormatString (RplNamReply channel []) client2))
              (Nicks channel)) as (gs & Hg & _).
  rewrite Hg. cbn [fmap option_fmap option_map].
  exists ((group_line channel client2 <$> gs)
          ++ [terminator_line channel client2]).
  split; [|reflexivity].
  assert (Hlines : group_line channel client1 <$> gs
                   = group_line channel client2 <$> gs).
  { apply list_fmap_ext. intros i g Hi. unfold group_line.
    by apply FormatString_same_Nick. }
  assert (Hterm : terminator_line channel client1
                  = terminator_line channel client2).
  { unfold terminator_line. by apply FormatString_same_Nick. }
  rewrite Hlines, Hterm. reflexivity.
Qed.

(** C8, as the claim states it, fails: the names reply for one room,
    encoded for the same recipient before and after "dave" joins the
    room, gives different lines; the state the reply refers to has
    changed between the two encodings. *)
Lemma C8_room_changed_between_encodings :
  @Reply_Format rfc1459 Scenario.store_at_construction
     (ReplyNames (NewNamesReply Scenario.room_ref)) Scenario.bob []
  ≠ @Reply_Format rfc1459 Scenario.store_later
      (ReplyNames (NewNamesReply Scenario.room_ref)) Scenario.bob [].
Proof.
  cbn [Reply_Format]. unfold Scenario.store_later.
  rewrite NamesReply_Format_lookup.
  unfold Scenario.store_at_construction.
  rewrite NamesReply_Format_lookup. vm_compute. discriminate.
Qed.

(** C8, amended.  Two encodings of one reply write the same lines when
    the recipients have the same display name and, for a names reply,
    the room the reply refers to is the same in the store at both
    encodings.  Nothing else counts: not what the sinks hold, not the
    rest of the recipient, not the other rooms of the store, which may
    all differ between the two encodings.  (A names reply whose room is
    missing fails both times.) *)
Theorem C8_same_lines_while_room_unchanged `{Numerics}
  (store1 store2 : gmap nat Channel) (reply : Reply)
  (client1 client2 : Client) (write1 write2 : list string) :
  Nick client1 = Nick client2 →
  (∀ r, reply = ReplyNames r →
        store1 !! names_channel r = store2 !! names_channel r) →
  (∃ lines,
     Reply_Format store1 reply client1 write1 = Some (write1 ++ lines)
     ∧ Reply_Format store2 reply client2 write2 = Some (write2 ++ lines))
  ∨ (Reply_Format store1 reply client1 write1 = None
     ∧ Reply_Format store2 reply client2 write2 = None).
Proof.
  intros E Hroom. destruct reply as [r|r|r]; cbn [Reply_Format].
  - left. eexists. split; reflexivity.
  - left. exists [NumericReply_FormatString r client2].
    unfold NumericReply_Format.
    rewrite (FormatString_same_Nick r client1 client2 E).
    split; reflexivity.
  - unfold NamesReply_Format. rewrite <- (Hroom r eq_refl).
    destruct (store1 !! names_channel r) as [channel|];
      cbn [mbind option_bind]; [left|right; split; reflexivity].
    by apply NamesReply_Format_body_same_Nick.
Qed.

(** Between the two encodings "frank" joins another room, the sink has
    got a line and the recipient is another connection named "bob":
    the lines written are the same. *)
Lemma C8_same_lines_witness :
  Nick Scenario.bob = Nick Crowd.bob_elsewhere
  ∧ (∀ r, ReplyNames (NewNamesReply Scenario.room_ref) = ReplyNames r →
          Crowd.store_two_rooms !! names_channel r
          = Crowd.store_two_rooms_later !! names_channel r)
  ∧ ((∃ lines,
        @Reply_Format rfc1459 Crowd.store_two_rooms
          (ReplyNames (NewNamesReply Scenario.room_ref)) Scenario.bob []
        = Some ([] ++ lines)
        ∧ @Reply_Format rfc1459 Crowd.store_two_rooms_later
            (ReplyNames (NewNamesReply Scenario.room_ref))
            Crowd.bob_elsewhere ["PING"]
          = Some (["PING"] ++ lines))
     ∨ (@Reply_Format rfc1459 Crowd.store_two_rooms
          (ReplyNames (NewNamesReply Scenario.room_ref)) Scenario.bob []
        = None
        ∧ @Reply_Format rfc1459 Crowd.store_two_rooms_later
            (ReplyNames (NewNamesReply Scenario.room_ref))
            Crowd.bob_elsewhere ["PING"]
          = None)).
Proof.
  assert (HN : Nick Scenario.bob = Nick Crowd.bob_elsewhere) by reflexivity.
  assert (HR : ∀ r, ReplyNames (NewNamesReply Scenario.room_ref) = ReplyNames r →
                    Crowd.store_two_rooms !! names_channel r
                    = Crowd.store_two_rooms_later !! names_channel r).
  { intros r [= <-]. cbn [NewNamesReply names_channel].
    unfold Crowd.store_two_rooms_later.
    rewrite lookup_insert_ne by discriminate. reflexivity. }
  split; [exact HN|]. split; [exact HR|].
  exact (@C8_same_lines_while_room_unchanged rfc1459 Crowd.store_two_rooms
           Crowd.store_two_rooms_later
           (ReplyNames (NewNamesReply Scenario.room_ref))
           Scenario.bob Crowd.bob_elsewhere [] ["PING"] HN HR).
Defined.
